(** * UL1400-1 analyzer: let-go threshold evaluation, segment extraction,
      window search and region merging.

    Shallow embedding of [ul1400_1_analyzer/utils/waveform.py],
    [ul1400_1_analyzer/analysis/letgo_analyzer.py],
    [ul1400_1_analyzer/analysis/analyzer_support.py] and
    [ul1400_1_analyzer/let_go.py].

    Numbers.  The Python code computes on [float].  Times and measured values
    are embedded as canonical rationals [Qc] with exact arithmetic: equality is
    Leibniz equality (as [==] on finite floats is equality of values), the
    order is total, and rounding, infinities and NaN are left out.

    Dictionaries.  A Python [dict] keeps insertion order; a waveform or a
    segment is an association list of (time, value) points, keys unique
    ([NoDup] of the keys, assumed where a statement depends on it).

    Exceptions and loops.  A function that can raise or loop returns an
    [outcome A]: a value, an exception (every exception the embedded code can
    raise has a constructor of [exn]), or [Diverge] when it never returns.  A
    [while] loop is a function of one turn, run for a bounded number of
    turns; the bound is shown to be enough wherever the loop ends. *)

From Stdlib Require Import String List Bool Arith Lia ZArith QArith Qcanon
  Permutation Lra Lqa Reals Qreals.
Import ListNotations.

Local Open Scope Qc_scope.

(* ================================================================== *)
(** * Rational numbers as the carrier of times and values *)

Module Num.

Definition ltb (x y : Qc) : bool :=
  match x ?= y with Lt => true | _ => false end.

Definition leb (x y : Qc) : bool :=
  match x ?= y with Gt => false | _ => true end.

Definition eqb (x y : Qc) : bool :=
  match x ?= y with Eq => true | _ => false end.

(** Python's [min(a, b)] and [max(a, b)]: the first argument is kept unless
    the second is strictly smaller (strictly greater). *)
Definition min2 (a b : Qc) : Qc := if ltb b a then b else a.
Definition max2 (a b : Qc) : Qc := if ltb a b then b else a.

(** Python's [abs]. *)
Definition abs (x : Qc) : Qc := if ltb x 0 then - x else x.

(** [max(xs)] and [min(xs)] over a sequence; [None] stands for the
    [ValueError] that Python raises on an empty sequence. *)
Definition list_max (xs : list Qc) : option Qc :=
  match xs with
  | [] => None
  | x :: r => Some (fold_left max2 r x)
  end.

Definition list_min (xs : list Qc) : option Qc :=
  match xs with
  | [] => None
  | x :: r => Some (fold_left min2 r x)
  end.

(** [sum(xs)], from the left, starting at 0. *)
Definition sum (xs : list Qc) : Qc := fold_left Qcplus xs 0.

(** [len(xs)] as a number. *)
Definition len (xs : list Qc) : Qc := Q2Qc (inject_Z (Z.of_nat (length xs))).

End Num.

(** A literal of the source, as a number. *)
Definition q (x : Q) : Qc := Q2Qc x.

Infix "<?" := Num.ltb (at level 70, no associativity) : Qc_scope.
Infix "<=?" := Num.leb (at level 70, no associativity) : Qc_scope.
Infix "=?" := Num.eqb (at level 70, no associativity) : Qc_scope.

(* ================================================================== *)
(** * Regions: [utils/waveform.py] *)

(** A region is a [(start, end)] tuple. *)
Definition region : Type := (Qc * Qc)%type.

Definition region_eqb (r1 r2 : region) : bool :=
  (fst r1 =? fst r2) && (snd r1 =? snd r2).

(** [unionize_regions]: [None] when the regions are neither overlapped nor
    exactly adjacent, else lowest start to highest end. *)
Definition unionize_regions (region_1 region_2 : region) : option region :=
  if (snd region_1 <? fst region_2) || (snd region_2 <? fst region_1)
  then None
  else Some (Num.min2 (fst region_1) (fst region_2),
             Num.max2 (snd region_1) (snd region_2)).

(** [itertools.combinations(l, 2)]: pairs of positions [i < j], in
    lexicographic order of the positions. *)
Fixpoint combinations2 {A : Type} (l : list A) : list (A * A) :=
  match l with
  | [] => []
  | x :: r => map (fun y => (x, y)) r ++ combinations2 r
  end.

(** [list.remove(x)]: drops the first element equal to [x].  Python raises
    [ValueError] when there is none; [merge_regions] only removes elements it
    has just read from the list (see [remove_pair_present] below), so the
    list is returned unchanged in that case. *)
Fixpoint list_remove (x : region) (l : list region) : list region :=
  match l with
  | [] => []
  | y :: r => if region_eqb y x then r else y :: list_remove x r
  end.

(** The [for ... in itertools.combinations(merged_regions, 2)] scan: the first
    pair whose union exists, with that union. *)
Fixpoint first_union (pairs : list (region * region))
  : option (region * region * region) :=
  match pairs with
  | [] => None
  | (r1, r2) :: rest =>
      match unionize_regions r1 r2 with
      | Some u => Some (r1, r2, u)
      | None => first_union rest
      end
  end.

(** One turn of the [while need_another_iteration] loop: [None] when the scan
    found nothing (the loop exits), else the list for the next turn. *)
Definition merge_step (merged_regions : list region) : option (list region) :=
  match first_union (combinations2 merged_regions) with
  | None => None
  | Some (r1, r2, union_region) =>
      Some (list_remove r2 (list_remove r1 merged_regions) ++ [union_region])
  end.

(** The loop, with a bound on the number of turns. *)
Fixpoint merge_loop (fuel : nat) (merged_regions : list region) : list region :=
  match fuel with
  | O => merged_regions
  | S n =>
      match merge_step merged_regions with
      | None => merged_regions
      | Some next => merge_loop n next
      end
  end.

(** [merge_regions]: every turn shortens the list by one, so [len(regions)]
    turns are enough ([merge_regions_stable] shows the loop has exited). *)
Definition merge_regions (regions : list region) : list region :=
  merge_loop (length regions) regions.

(* ================================================================== *)
(** * Outcomes of a call *)

Inductive value_error : Type :=
  | EmptySequence            (* max() / min() of an empty sequence *)
  | UnsupportedStandardVersion
  | UnsupportedInterpretation
  | BadEnvConditions
  | BadMeasurementType
  | NegativeDC               (* DC values less than 0 are not supported *)
  | AboveCeilingDC           (* DC values greater than 30 mA / 30 V / 60 V *)
  | NotExpandable            (* expand_region on separated regions *)
  | PoolProcesses.           (* Pool(processes) with processes < 1 *)

Inductive exn : Type :=
  | ValueError (why : value_error)
  | TypeError
  | AttributeError
  | KeyError
  | ZeroDivisionError
  | UnboundLocalError.

(** A call returns a value, raises, or never returns. *)
Inductive outcome (A : Type) : Type :=
  | Ok (a : A)
  | Raise (e : exn)
  | Diverge.

Arguments Ok {A} a.
Arguments Raise {A} e.
Arguments Diverge {A}.

Definition bind {A B : Type} (c : outcome A) (k : A -> outcome B) : outcome B :=
  match c with
  | Ok a => k a
  | Raise e => Raise e
  | Diverge => Diverge
  end.

Notation "x <- c ;; k" := (bind c (fun x => k))
  (at level 61, c at next level, right associativity).

(** The spec's names for the two families of [ValueError]. *)
Definition ConfigurationError (e : exn) : Prop :=
  e = ValueError UnsupportedStandardVersion \/
  e = ValueError UnsupportedInterpretation \/
  e = ValueError BadEnvConditions \/
  e = ValueError BadMeasurementType.


Definition py_max (xs : list Qc) : outcome Qc :=
  match Num.list_max xs with
  | Some m => Ok m
  | None => Raise (ValueError EmptySequence)
  end.

Definition py_min (xs : list Qc) : outcome Qc :=
  match Num.list_min xs with
  | Some m => Ok m
  | None => Raise (ValueError EmptySequence)
  end.

Definition py_div (a b : Qc) : outcome Qc :=
  if b =? 0 then Raise ZeroDivisionError else Ok (a / b).

(* ================================================================== *)
(** * Waveforms and segments: [utils/waveform.py] *)

(** [dict[float, float]]: points (time, value) in insertion order. *)
Definition wave : Type := list (Qc * Qc).

Definition keys (w : wave) : list Qc := map fst w.
Definition values (w : wave) : list Qc := map snd w.

(** [d[k]]. *)
Fixpoint dict_get (k : Qc) (d : wave) : outcome Qc :=
  match d with
  | [] => Raise KeyError
  | (k', v) :: r => if k' =? k then Ok v else dict_get k r
  end.

(** [d[k] = v]: an existing key keeps its place, a new key goes last. *)
Fixpoint dict_set (k v : Qc) (d : wave) : wave :=
  match d with
  | [] => [(k, v)]
  | (k', v') :: r => if k' =? k then (k, v) :: r else (k', v') :: dict_set k v r
  end.

(** [expand_region]. *)
Definition expand_region (existing : option region) (addition : region)
  : outcome region :=
  match existing with
  | None => Ok addition
  | Some ex =>
      match unionize_regions ex addition with
      | None => Raise (ValueError NotExpandable)
      | Some union_region => Ok union_region
      end
  end.

(** What one turn of a [while] loop does. *)
Inductive turn (S R : Type) : Type :=
  | Continue (s : S)
  | Return (r : R).

Arguments Continue {S R} s.
Arguments Return {S R} r.

(** One turn of the loop of [get_segment_from_waveform], from the evaluation
    of its condition.  A [ValueError] of [max]/[min] is caught by the
    [except ValueError] around the loop and makes the function return [None];
    a [KeyError] would not be caught. *)
Definition segment_turn (waveform : wave) (min_duration : Qc)
  (direction_to_extend_beyond : string) (segment : wave)
  : turn wave (outcome (option wave)) :=
  match Num.list_max (keys segment), Num.list_min (keys segment) with
  | Some hi, Some lo =>
      if hi - lo <? min_duration then
        if String.eqb direction_to_extend_beyond "start" then
          match Num.list_max
                  (keys (filter (fun p => fst p <? lo) waveform)) with
          | None => Return (Ok None)
          | Some next_earlier_time =>
              match dict_get next_earlier_time waveform with
              | Ok v => Continue (dict_set next_earlier_time v segment)
              | Raise e => Return (Raise e)
              | Diverge => Return Diverge
              end
          end
        else if String.eqb direction_to_extend_beyond "end" then
          match Num.list_min
                  (keys (filter (fun p => hi <? fst p) waveform)) with
          | None => Return (Ok None)
          | Some next_later_time =>
              match dict_get next_later_time waveform with
              | Ok v => Continue (dict_set next_later_time v segment)
              | Raise e => Return (Raise e)
              | Diverge => Return Diverge
              end
          end
        else Continue segment
      else Return (Ok (Some segment))
  | _, _ => Return (Ok None)
  end.

(** The loop run for at most [fuel] turns; [Diverge] when they are used up. *)
Fixpoint segment_loop (fuel : nat) (waveform : wave) (min_duration : Qc)
  (direction_to_extend_beyond : string) (segment : wave)
  : outcome (option wave) :=
  match fuel with
  | O => Diverge
  | S n =>
      match segment_turn waveform min_duration direction_to_extend_beyond
              segment with
      | Return r => r
      | Continue s =>
          segment_loop n waveform min_duration direction_to_extend_beyond s
      end
  end.

Definition window (waveform : wave) (start_time end_time : Qc) : wave :=
  filter (fun p => (start_time <=? fst p) && (fst p <=? end_time)) waveform.

Definition get_segment_fuel (fuel : nat) (waveform : option wave)
  (start_time end_time min_duration : Qc) (direction_to_extend_beyond : string)
  : outcome (option wave) :=
  match waveform with
  | None => Ok None
  | Some w =>
      segment_loop fuel w min_duration direction_to_extend_beyond
        (window w start_time end_time)
  end.

(** [get_segment_from_waveform].  A turn that does not leave the loop either
    adds a point of the waveform that the segment did not have, or changes
    nothing; [len(waveform) + 1] turns therefore decide the call
    ([get_segment_fuel_enough]). *)
Definition get_segment_from_waveform (waveform : option wave)
  (start_time end_time min_duration : Qc) (direction_to_extend_beyond : string)
  : outcome (option wave) :=
  get_segment_fuel
    (S (match waveform with Some w => List.length w | None => 0 end))
    waveform start_time end_time min_duration direction_to_extend_beyond.

(* ================================================================== *)
(** * [analysis/analyzer_support.py] *)

Inductive Interpretation : Type := STRICT | TYPOS | REASONABLE | SPECULATIVE.

Inductive StandardVersion : Type := UL1400_1_ISSUE_1.

Definition DEFAULT_INTERPRETATION : Interpretation := STRICT.
Definition LATEST_STANDARD_VERSION : StandardVersion := UL1400_1_ISSUE_1.
Definition DEFAULT_STANDARD_VERSION : StandardVersion := LATEST_STANDARD_VERSION.

(** A limit the peak is compared with: a rational, or [5 * math.sqrt(2)]. *)
Inductive limit : Type :=
  | Lim (l : Qc)
  | FiveSqrt2.

(** [peak <= limit].  For the irrational limit the comparison is decided on
    the squares: [p <= 5 * sqrt 2] iff [p <= 0] or [p * p <= 50]
    ([le_limit_real] relates it to the real number). *)
Definition le_limit (peak : Qc) (l : limit) : bool :=
  match l with
  | Lim x => peak <=? x
  | FiveSqrt2 => (peak <=? 0) || (peak * peak <=? q 50)
  end.

Definition limit_real (l : limit) : R :=
  match l with
  | Lim x => Q2R x
  | FiveSqrt2 => (5 * sqrt 2)%R
  end.

(* ================================================================== *)
(** * [analysis/letgo_analyzer.py]: the threshold evaluator *)

Module Analyzer.

(** [interpretation in [Interpretation.REASONABLE, Interpretation.SPECULATIVE]] *)
Definition magnitude_level (i : Interpretation) : bool :=
  match i with REASONABLE | SPECULATIVE => true | _ => false end.

(** [interpretation in [Interpretation.STRICT, Interpretation.TYPOS]] *)
Definition strict_level (i : Interpretation) : bool :=
  match i with STRICT | TYPOS => true | _ => false end.

(** [is_current_below_letgo].  [interpretation] and [standard_version] are
    [None] for a value that is not a member of the enumeration. *)
Definition is_current_below_letgo (segment_values : option (list Qc))
  (interpretation : option Interpretation)
  (standard_version : option StandardVersion) : outcome (option bool) :=
  match segment_values with
  | None => Ok None
  | Some vs =>
  match standard_version with
  | None => Raise (ValueError UnsupportedStandardVersion)
  | Some UL1400_1_ISSUE_1 =>
  match interpretation with
  | None => Raise (ValueError UnsupportedInterpretation)
  | Some interp =>
      let a_to_ma_scalar := q 1000 in
      m <- py_max vs ;;
      let peak_ma := m * a_to_ma_scalar in
      avg <- py_div (Num.sum vs) (Num.len vs) ;;
      let mean_ma := avg * a_to_ma_scalar in
      pm <- (if magnitude_level interp then
               m' <- py_max (map Num.abs vs) ;;
               Ok (m' * a_to_ma_scalar, Num.abs mean_ma)
             else Ok (peak_ma, mean_ma)) ;;
      let peak_ma := fst pm in
      let mean_ma := snd pm in
      if mean_ma <? 0 then Raise (ValueError NegativeDC)
      else if mean_ma <=? q 4.21 then
        Ok (Some (le_limit peak_ma FiveSqrt2))
      else if mean_ma <=? q 30 then
        match interp with
        | STRICT =>
            Ok (Some (le_limit peak_ma (Lim (q 33.3 + q 0.89 * mean_ma))))
        | _ =>
            Ok (Some (le_limit peak_ma (Lim (q 3.33 + q 0.89 * mean_ma))))
        end
      else if strict_level interp then Raise (ValueError AboveCeilingDC)
      else Ok (Some false)
  end end end.

(** [env_conditions not in ['wet', 'dry']] *)
Definition bad_env (env_conditions : option string) : bool :=
  match env_conditions with
  | Some e => negb (String.eqb e "wet" || String.eqb e "dry")
  | None => true
  end.

(** [is_voltage_below_letgo]. *)
Definition is_voltage_below_letgo (segment_values : option (list Qc))
  (env_conditions : option string)
  (interpretation : option Interpretation)
  (standard_version : option StandardVersion) : outcome (option bool) :=
  match segment_values with
  | None => Ok None
  | Some vs =>
  match standard_version with
  | None => Raise (ValueError UnsupportedStandardVersion)
  | Some UL1400_1_ISSUE_1 =>
  match interpretation with
  | None => Raise (ValueError UnsupportedInterpretation)
  | Some interp =>
      if bad_env env_conditions then Raise (ValueError BadEnvConditions)
      else
      peak <- py_max vs ;;
      mean <- py_div (Num.sum vs) (Num.len vs) ;;
      pm <- (if magnitude_level interp then
               m' <- py_max (map Num.abs vs) ;;
               Ok (m', Num.abs mean)
             else Ok (peak, mean)) ;;
      let peak := fst pm in
      let mean := snd pm in
      if mean <? 0 then Raise (ValueError NegativeDC)
      else
      let above :=
        if strict_level interp then Raise (ValueError AboveCeilingDC)
        else Ok (Some false) in
      match env_conditions with
      | Some "wet"%string =>
          if mean <=? q 10.4 then Ok (Some (peak <=? q 21.2))
          else if mean <=? q 30 then Ok (Some (peak <=? q 16.5 + q 0.45 * mean))
          else above
      | Some "dry"%string =>
          if mean <=? q 20.9 then Ok (Some (peak <=? q 42.4))
          else if mean <=? q 60 then Ok (Some (peak <=? q 33 + q 0.45 * mean))
          else above
      | _ => Raise UnboundLocalError
      end
  end end end.

(** [is_below_letgo]. *)
Definition is_below_letgo (measurement_type : string)
  (segment_values : option (list Qc)) (env_conditions : option string)
  (interpretation : option Interpretation)
  (standard_version : option StandardVersion) : outcome (option bool) :=
  if String.eqb measurement_type "current" then
    is_current_below_letgo segment_values interpretation standard_version
  else if String.eqb measurement_type "voltage" then
    is_voltage_below_letgo segment_values env_conditions interpretation
      standard_version
  else Raise (ValueError BadMeasurementType).

End Analyzer.

(* ================================================================== *)
(** * [analysis/letgo_analyzer.py]: the window search on a worker pool *)

(** Truth value of a [bool|None] in an [if]. *)
Definition truthy (b : option bool) : bool :=
  match b with Some true => true | _ => false end.

(** [pool.starmap_async(f, args)] and the wait until [ready()]: every task is
    run; the wait ends when all have ended.  The result is [successful()]
    when no task raised.  Which exception the error callback sees last
    depends on the schedule; only its message is used, for printing. *)
Fixpoint pool_starmap {A B : Type} (f : A -> outcome B) (args : list A)
  : outcome (list B) :=
  match args with
  | [] => Ok []
  | a :: rest =>
      match f a, pool_starmap f rest with
      | Diverge, _ => Diverge
      | _, Diverge => Diverge
      | Raise e, _ => Raise e
      | Ok _, Raise e => Raise e
      | Ok b, Ok bs => Ok (b :: bs)
      end
  end.

(** [[r for r in results if r is not None]] *)
Fixpoint not_none {A : Type} (l : list (option A)) : list A :=
  match l with
  | [] => []
  | Some a :: r => a :: not_none r
  | None :: r => not_none r
  end.

(** [min_start_time]: [start_time], else the waveform's least time. *)
Definition floor_time (start_time : option Qc) (waveform : wave) : outcome Qc :=
  match start_time with
  | Some s => Ok s
  | None => py_min (keys waveform)
  end.

(** [[(t - d, t) for t in waveform.keys() if t - d >= min_start_time]] *)
Definition target_windows (waveform : wave) (min_window_duration : Qc)
  (min_start_time : Qc) : list (Qc * Qc) :=
  map (fun t => (t - min_window_duration, t))
    (filter (fun t => min_start_time <=? t - min_window_duration)
       (keys waveform)).

Module Parallel.

Import Analyzer.

(** [_analyze_segment]; the progress counter is left out. *)
Definition _analyze_segment (measurement_type : string)
  (waveform : option wave)
  (target_start_time target_end_time min_window_duration : Qc)
  (env_conditions : option string) (interpretation : option Interpretation)
  (standard_version : option StandardVersion) : outcome (option region) :=
  segment <- get_segment_from_waveform waveform target_start_time
               target_end_time min_window_duration "start" ;;
  match segment with
  | None => Raise AttributeError          (* segment.values() on None *)
  | Some seg =>
      b <- is_below_letgo measurement_type (Some (values seg)) env_conditions
             interpretation standard_version ;;
      if truthy b then
        lo <- py_min (keys seg) ;;
        hi <- py_max (keys seg) ;;
        Ok (Some (lo, hi))
      else Ok None
  end.

(** One turn of [for measurement_type, waveform in both_waveforms.items()]
    on a waveform that is not [None]; [found] is
    [time_regions_below_letgo]. *)
Definition pass (num_processes : Z) (measurement_type : string)
  (waveform : wave) (env_conditions : option string) (start_time : option Qc)
  (min_window_duration : Qc) (interpretation : option Interpretation)
  (standard_version : option StandardVersion) (found : list region)
  : outcome (list region) :=
  min_start_time <- floor_time start_time waveform ;;
  let target_times :=
    target_windows waveform min_window_duration min_start_time in
  if (num_processes <? 1)%Z then Raise (ValueError PoolProcesses)
  else
    match pool_starmap
            (fun t => _analyze_segment measurement_type (Some waveform)
                        (fst t) (snd t) min_window_duration env_conditions
                        interpretation standard_version)
            target_times with
    | Diverge => Diverge
    | Raise _ => Ok found                   (* print(last_error_message) *)
    | Ok results => Ok (found ++ not_none results)
    end.

(** [find_time_regions_below_letgo].  [cpu_count] is [os.cpu_count()]. *)
Definition find_time_regions_below_letgo (current_waveform : option wave)
  (voltage_waveform : option wave) (env_conditions : option string)
  (start_time : option Qc) (min_window_duration : Qc) (num_cores : option Z)
  (cpu_count : Z) (interpretation : option Interpretation)
  (standard_version : option StandardVersion) : outcome (list region) :=
  let both_waveforms :=
    [("current"%string, current_waveform);
     ("voltage"%string, voltage_waveform)] in
  let num_cores := match num_cores with Some n => n | None => cpu_count end in
  let num_processes := Z.min num_cores cpu_count in
  time_regions_below_letgo <-
    fold_left
      (fun acc mw =>
         found <- acc ;;
         match snd mw with
         | None => Ok found
         | Some waveform =>
             pass num_processes (fst mw) waveform env_conditions start_time
               min_window_duration interpretation standard_version found
         end)
      both_waveforms (Ok []) ;;
  Ok (merge_regions time_regions_below_letgo).

End Parallel.

Definition ramp (n : nat) (v : Qc) : wave :=
  map (fun k => (q (inject_Z (Z.of_nat k)), v)) (seq 0 n).

(* ================================================================== *)
(** * [let_go.py]: the serial variant *)

Module LetGo.

(** [is_current_below_letgo]: no interpretation level; the constant is 3.33
    and a mean above 30 mA raises. *)
Definition is_current_below_letgo (segment_values : option (list Qc))
  : outcome (option bool) :=
  match segment_values with
  | None => Ok None
  | Some vs =>
      let a_to_ma_scalar := q 1000 in
      m <- py_max vs ;;
      let peak_ma := m * a_to_ma_scalar in
      avg <- py_div (Num.sum vs) (Num.len vs) ;;
      let mean_ma := avg * a_to_ma_scalar in
      if mean_ma <? 0 then Raise (ValueError NegativeDC)
      else if mean_ma <=? q 4.21 then
        Ok (Some (le_limit peak_ma FiveSqrt2))
      else if mean_ma <=? q 30 then
        Ok (Some (le_limit peak_ma (Lim (q 3.33 + q 0.89 * mean_ma))))
      else Raise (ValueError AboveCeilingDC)
  end.

(** [is_voltage_below_letgo]. *)
Definition is_voltage_below_letgo (segment_values : option (list Qc))
  (env_conditions : option string) : outcome (option bool) :=
  match segment_values with
  | None => Ok None
  | Some vs =>
      if Analyzer.bad_env env_conditions
      then Raise (ValueError BadEnvConditions)
      else
      peak <- py_max vs ;;
      mean <- py_div (Num.sum vs) (Num.len vs) ;;
      if mean <? 0 then Raise (ValueError NegativeDC)
      else
      match env_conditions with
      | Some "wet"%string =>
          if mean <=? q 10.4 then Ok (Some (peak <=? q 21.2))
          else if mean <=? q 30 then Ok (Some (peak <=? q 16.5 + q 0.45 * mean))
          else Raise (ValueError AboveCeilingDC)
      | Some "dry"%string =>
          if mean <=? q 20.9 then Ok (Some (peak <=? q 42.4))
          else if mean <=? q 60 then Ok (Some (peak <=? q 33 + q 0.45 * mean))
          else Raise (ValueError AboveCeilingDC)
      | _ => Raise UnboundLocalError
      end
  end.

(** [is_below_letgo]. *)
Definition is_below_letgo (measurement_type : string)
  (segment_values : option (list Qc)) (env_conditions : option string)
  : outcome (option bool) :=
  if String.eqb measurement_type "current" then
    is_current_below_letgo segment_values
  else if String.eqb measurement_type "voltage" then
    is_voltage_below_letgo segment_values env_conditions
  else Raise (ValueError BadMeasurementType).

(** [(min(segment.keys(), max(segment.keys())))]: [min] is closed after
    [max(...)], so it is called on the key view and a float.  [max] of the
    keys is evaluated first; then [min] compares the float with the key
    view, which Python answers with [TypeError]. *)
Definition min_of_keys_and_max (segment : wave) : outcome region :=
  _ <- py_max (keys segment) ;;
  Raise TypeError.

(** The variables of the [while] loop. *)
Record search : Type := {
  working_region : option region;
  target_end_time : Qc;
  target_start_time : option Qc;
  time_regions_below_letgo : list region
}.

(** The body of the [while] loop. *)
Definition search_body (measurement_type : string) (waveform : wave)
  (env_conditions : option string) (min_window_duration : Qc)
  (start : Qc) (s : search) : outcome search :=
  segment <- get_segment_from_waveform (Some waveform) start
               (target_end_time s) min_window_duration "start" ;;
  match segment with
  | None => Raise AttributeError          (* segment.values() on None *)
  | Some seg =>
      b <- is_below_letgo measurement_type (Some (values seg))
             env_conditions ;;
      wf <- (if truthy b then
               new_region <- min_of_keys_and_max seg ;;
               w <- expand_region (working_region s) new_region ;;
               Ok (Some w, time_regions_below_letgo s)
             else
               match working_region s with
               | Some w => Ok (None, time_regions_below_letgo s ++ [w])
               | None => Ok (None, time_regions_below_letgo s)
               end) ;;
      let remaining_end_times :=
        filter (fun t => t <? target_end_time s) (keys waveform) in
      match Num.list_max remaining_end_times with
      | Some e =>
          Ok {| working_region := fst wf;
                target_end_time := e;
                target_start_time := Some (e - min_window_duration);
                time_regions_below_letgo := snd wf |}
      | None =>
          Ok {| working_region := fst wf;
                target_end_time := target_end_time s;
                target_start_time := None;
                time_regions_below_letgo := snd wf |}
      end
  end.

(** One turn of the [while] loop, from its condition. *)
Definition search_turn (measurement_type : string) (waveform : wave)
  (env_conditions : option string) (min_window_duration min_start_time : Qc)
  (s : search) : turn search (outcome search) :=
  match target_start_time s with
  | Some start =>
      if min_start_time <=? start then
        match search_body measurement_type waveform env_conditions
                min_window_duration start s with
        | Ok s' => Continue s'
        | Raise e => Return (Raise e)
        | Diverge => Return Diverge
        end
      else Return (Ok s)
  | None => Return (Ok s)
  end.

Fixpoint search_loop (fuel : nat) (measurement_type : string) (waveform : wave)
  (env_conditions : option string) (min_window_duration min_start_time : Qc)
  (s : search) : outcome search :=
  match fuel with
  | O => Diverge
  | S n =>
      match search_turn measurement_type waveform env_conditions
              min_window_duration min_start_time s with
      | Return r => r
      | Continue s' =>
          search_loop n measurement_type waveform env_conditions
            min_window_duration min_start_time s'
      end
  end.

(** One turn of [for measurement_type, waveform in both_waveforms.items()]
    on a waveform that is not [None].  Each turn of the [while] loop moves
    [target_end_time] to a smaller key, so [len(waveform) + 1] turns are
    enough. *)
Definition pass (measurement_type : string) (waveform : wave)
  (env_conditions : option string) (start_time : option Qc)
  (min_window_duration : Qc) (found : list region) : outcome (list region) :=
  min_start_time <- floor_time start_time waveform ;;
  target_end_time <- py_max (keys waveform) ;;
  s <- search_loop (S (List.length waveform)) measurement_type waveform
         env_conditions min_window_duration min_start_time
         {| working_region := None;
            target_end_time := target_end_time;
            target_start_time := Some (target_end_time - min_window_duration);
            time_regions_below_letgo := found |} ;;
  match working_region s with
  | Some w => Ok (time_regions_below_letgo s ++ [w])
  | None => Ok (time_regions_below_letgo s)
  end.

(** [find_time_regions_below_letgo]. *)
Definition find_time_regions_below_letgo (current_waveform : option wave)
  (voltage_waveform : option wave) (env_conditions : option string)
  (start_time : option Qc) (min_window_duration : Qc)
  : outcome (list region) :=
  let both_waveforms :=
    [("current"%string, current_waveform);
     ("voltage"%string, voltage_waveform)] in
  time_regions_below_letgo <-
    fold_left
      (fun acc mw =>
         found <- acc ;;
         match snd mw with
         | None => Ok found
         | Some waveform =>
             pass (fst mw) waveform env_conditions start_time
               min_window_duration found
         end)
      both_waveforms (Ok []) ;;
  Ok (merge_regions time_regions_below_letgo).

End LetGo.

(* ================================================================== *)
(** * Predicates of the specification *)

(** A region as the spec has it: [start <= end]. *)
Definition well_formed (r : region) : Prop := fst r <= snd r.

(** The two regions have no point in common. *)
Definition separated (r1 r2 : region) : Prop :=
  snd r1 < fst r2 \/ snd r2 < fst r1.

(** [m] is the greatest element of [xs]. *)
Definition is_greatest (xs : list Qc) (m : Qc) : Prop :=
  In m xs /\ forall x, In x xs -> x <= m.

(** [m] is the least element of [xs]. *)
Definition is_least (xs : list Qc) (m : Qc) : Prop :=
  In m xs /\ forall x, In x xs -> m <= x.

Definition average (vs : list Qc) : Qc := Num.sum vs / Num.len vs.

(** The values a level reads: magnitudes under [REASONABLE] and
    [SPECULATIVE], the values themselves otherwise. *)
Definition readings (i : Interpretation) (vs : list Qc) : list Qc :=
  match i with
  | REASONABLE | SPECULATIVE => map Num.abs vs
  | STRICT | TYPOS => vs
  end.

(** The mean a level reads, in the unit of the values. *)
Definition mean_reading (i : Interpretation) (vs : list Qc) : Qc :=
  match i with
  | REASONABLE | SPECULATIVE => Num.abs (average vs)
  | STRICT | TYPOS => average vs
  end.



Definition valid_env (env : option string) : Prop :=
  env = Some "wet"%string \/ env = Some "dry"%string.

(** A configuration the evaluator refuses: unsupported standard version,
    interpretation outside the four levels, or a voltage measurement with an
    environment that is neither wet nor dry. *)
Definition refused_config (measurement_type : string)
  (env_conditions : option string) (interpretation : option Interpretation)
  (standard_version : option StandardVersion) : Prop :=
  standard_version = None \/ interpretation = None \/
  (measurement_type = "voltage"%string /\ ~ valid_env env_conditions).


(** The segment has every point of the window, and only points of the
    waveform up to [end_time]. *)
Definition holds_window (w : wave) (start_time end_time : Qc) (seg : wave)
  : Prop :=
  (forall p, In p (window w start_time end_time) -> In p seg) /\
  (forall p, In p seg -> In p w /\ fst p <= end_time).

(** The time span of a segment is at least [d]. *)
Definition spans (seg : wave) (d : Qc) : Prop :=
  exists hi lo,
    is_greatest (keys seg) hi /\ is_least (keys seg) lo /\ d <= hi - lo.

(** The extension beyond the start has run out of points: the window has a
    latest point, and from no point of the waveform up to [end_time] does the
    span to it reach [d]. *)
Definition runs_out (w : wave) (start_time end_time d : Qc) : Prop :=
  exists hi,
    is_greatest (keys (window w start_time end_time)) hi /\
    forall t, In t (keys w) -> t <= end_time -> hi - t < d.


(** The size of the worker pool: [min(num_cores, os.cpu_count())]. *)
Definition pool_size (num_cores : option Z) (cpu_count : Z) : Z :=
  Z.min (match num_cores with Some n => n | None => cpu_count end) cpu_count.

(** The parallel worker at [TYPOS] finds no region in the window that ends at
    the sample time [k], when that window is a candidate. *)
Definition no_region_at (measurement_type : string) (w : wave)
  (env_conditions : option string) (d min_start_time k : Qc) : Prop :=
  min_start_time <= k - d ->
  Parallel._analyze_segment measurement_type (Some w) (k - d) k d
    env_conditions (Some TYPOS) (Some UL1400_1_ISSUE_1) = Ok None.

(** What holds at every turn of the serial search that has not raised: no
    region is being built, and the windows of all later sample times have
    been found without a region. *)
Definition search_inv (measurement_type : string) (w : wave)
  (env_conditions : option string) (d min_start_time : Qc) (s : LetGo.search)
  : Prop :=
  LetGo.working_region s = None /\
  match LetGo.target_start_time s with
  | Some ts =>
      ts = LetGo.target_end_time s - d /\
      forall k, In k (keys w) -> LetGo.target_end_time s < k ->
        no_region_at measurement_type w env_conditions d min_start_time k
  | None =>
      forall k, In k (keys w) ->
        no_region_at measurement_type w env_conditions d min_start_time k
  end.

(** The time [x] lies in one of the regions. *)
Definition covers (regions : list region) (x : Qc) : Prop :=
  exists r, In r regions /\ fst r <= x /\ x <= snd r.

(** No two regions of the list, at different places, overlap or touch. *)
Definition pairwise_separated (regions : list region) : Prop :=
  ForallOrdPairs separated regions.

(** Lists of regions with the same union. *)
Definition same_union (l1 l2 : list region) : Prop :=
  forall x, covers l1 x <-> covers l2 x.

(* ================================================================== *)
(** * [analysis/letgo_analyzer.py]: the configuration audit; [main.py] *)

(** [audit_config_valid].  The result tells whether the warning on a window
    shorter than 3 s was printed.  [min_window_duration] is [None] when the
    argument is left out; [None < 3] is a [TypeError]. *)
Definition audit_config_valid (interpretation : option Interpretation)
  (standard_version : option StandardVersion)
  (min_window_duration : option Qc) : outcome bool :=
  match standard_version with
  | None => Raise (ValueError UnsupportedStandardVersion)
  | Some UL1400_1_ISSUE_1 =>
  match interpretation with
  | None => Raise (ValueError UnsupportedInterpretation)
  | Some _ =>
  match min_window_duration with
  | None => Raise TypeError
  | Some d => Ok (d <? q 3)
  end end end.

(** Truth value of an optional string, number or integer in an [if]: [None],
    the empty string and zero are false. *)
Definition if_str (s : option string) : option string :=
  match s with
  | Some EmptyString => None
  | _ => s
  end.

Definition if_num (x : option Qc) : option Qc :=
  match x with
  | Some v => if v =? 0 then None else Some v
  | None => None
  end.

Definition if_int (n : option Z) : option Z :=
  match n with
  | Some 0%Z => None
  | _ => n
  end.

(** [data['by_id'][k]]. *)
Fixpoint by_id_get (k : string) (data : list (string * wave)) : outcome wave :=
  match data with
  | [] => Raise KeyError
  | (k', w) :: r => if String.eqb k' k then Ok w else by_id_get k r
  end.

Section Main.

(** [data_importer.import_data(importer_type, format_type, filepath=...,
    by_ids=...)], as far as [main_letgo] reads its result: the waveforms
    under ['by_id'].  The importers read files and are not embedded. *)
Variable import_data :
  string -> string -> option string -> list string ->
  outcome (list (string * wave)).

(** [main_letgo].  [cpu_count] is [os.cpu_count()].  The result is what was
    printed: the regions, and whether the audit warned. *)
Definition main_letgo (format_type importer_type : string)
  (current_waveform_id data_source_file env_conditions : option string)
  (start_time : option Qc) (voltage_waveform_id : option string)
  (window_duration : option Qc) (interpretation : option Interpretation)
  (num_cores : option Z) (cpu_count : Z)
  (standard_version : option StandardVersion)
  : outcome (list region * bool) :=
  let by_ids :=
    (match if_str current_waveform_id with Some i => [i] | None => [] end) ++
    (match if_str voltage_waveform_id with Some i => [i] | None => [] end) in
  data <- import_data importer_type format_type data_source_file by_ids ;;
  current_waveform <-
    match if_str current_waveform_id with
    | Some i => w <- by_id_get i data ;; Ok (Some w)
    | None => Ok None
    end ;;
  voltage_waveform <-
    match if_str voltage_waveform_id with
    | Some i => w <- by_id_get i data ;; Ok (Some w)
    | None => Ok None
    end ;;
  let min_window_duration := if_num window_duration in
  passing_regions <-
    Parallel.find_time_regions_below_letgo current_waveform voltage_waveform
      (if_str env_conditions) (if_num start_time)
      (match min_window_duration with Some d => d | None => q 3 end)
      (if_int num_cores) cpu_count interpretation standard_version ;;
  warned <- audit_config_valid interpretation standard_version
              min_window_duration ;;
  Ok (passing_regions, warned).

End Main.





(* ================================================================== *)
(** * The embedding on the spec's examples *)

Example merge_adjacent :
  merge_regions [(q 0, q 5); (q 5, q 10)] = [(q 0, q 10)].
Proof. vm_compute. reflexivity. Qed.

Example segment_direct :
  get_segment_from_waveform
    (Some [(q 0, q 1); (q 1, q 1); (q 2, q 1); (q 3, q 1)])
    (q 2) (q 3) (q 2.5) "start"
  = Ok (Some [(q 2, q 1); (q 3, q 1); (q 1, q 1); (q 0, q 1)]).
Proof. vm_compute. reflexivity. Qed.

Example typo_fix_strict :
  Analyzer.is_current_below_letgo (Some [q 0; q 0.02]) (Some STRICT)
    (Some UL1400_1_ISSUE_1) = Ok (Some true).
Proof. vm_compute. reflexivity. Qed.

Example typo_fix_typos :
  Analyzer.is_current_below_letgo (Some [q 0; q 0.02]) (Some TYPOS)
    (Some UL1400_1_ISSUE_1) = Ok (Some false).
Proof. vm_compute. reflexivity. Qed.

Example end_to_end_constant :
  Parallel.find_time_regions_below_letgo (Some (ramp 11 (q 0.003))) None None
    None (q 3) None 4 (Some STRICT) (Some UL1400_1_ISSUE_1)
  = Ok [(q 0, q 10)].
Proof. vm_compute. reflexivity. Qed.

Example end_to_end_spike :
  Parallel.find_time_regions_below_letgo
    (Some (ramp 5 0 ++ [(q 5, q 1)] ++ map (fun p => (fst p + q 6, snd p)) (ramp 5 0)))
    None None None (q 3) None 4 (Some REASONABLE) (Some UL1400_1_ISSUE_1)
  = Ok [(q 0, q 4); (q 6, q 10)].
Proof. vm_compute. reflexivity. Qed.

Example serial_constant_raises :
  LetGo.find_time_regions_below_letgo (Some (ramp 11 (q 0.003))) None None
    None (q 3) = Raise TypeError.
Proof. vm_compute. reflexivity. Qed.

Example serial_no_passing_window :
  LetGo.find_time_regions_below_letgo (Some [(q 0, q 0); (q 3, q 0.02)]) None
    None None (q 3) = Ok [].
Proof. vm_compute. reflexivity. Qed.

Example parallel_strict_passing_window :
  Parallel.find_time_regions_below_letgo (Some [(q 0, q 0); (q 3, q 0.02)])
    None None None (q 3) None 4 (Some STRICT) (Some UL1400_1_ISSUE_1)
  = Ok [(q 0, q 3)].
Proof. vm_compute. reflexivity. Qed.

(* ================================================================== *)
(** * Order and arithmetic on [Qc] *)

Lemma this_Q2Qc (x : Q) : (this (Q2Qc x) == x)%Q.
Proof. apply Qred_correct. Qed.

Lemma this_plus (x y : Qc) : (this (x + y) == this x + this y)%Q.
Proof. unfold Qcplus. apply this_Q2Qc. Qed.

Lemma this_opp (x : Qc) : (this (- x) == - this x)%Q.
Proof. unfold Qcopp. apply this_Q2Qc. Qed.

Lemma this_minus (x y : Qc) : (this (x - y) == this x - this y)%Q.
Proof. unfold Qcminus. rewrite this_plus, this_opp. reflexivity. Qed.

Lemma this_mult (x y : Qc) : (this (x * y) == this x * this y)%Q.
Proof. unfold Qcmult. apply this_Q2Qc. Qed.

Lemma Qc_eq_iff (x y : Qc) : x = y <-> (this x == this y)%Q.
Proof. split; [intros ->; reflexivity | apply Qc_is_canon]. Qed.

Ltac qc_push :=
  repeat match goal with
  | H : context [this (?x - ?y)] |- _ => rewrite (this_minus x y) in H
  | H : context [this (?x + ?y)] |- _ => rewrite (this_plus x y) in H
  | H : context [this (?x * ?y)] |- _ => rewrite (this_mult x y) in H
  | H : context [this (- ?x)] |- _ => rewrite (this_opp x) in H
  | H : context [this (Q2Qc ?x)] |- _ => rewrite (this_Q2Qc x) in H
  | |- context [this (?x - ?y)] => rewrite (this_minus x y)
  | |- context [this (?x + ?y)] => rewrite (this_plus x y)
  | |- context [this (?x * ?y)] => rewrite (this_mult x y)
  | |- context [this (- ?x)] => rewrite (this_opp x)
  | |- context [this (Q2Qc ?x)] => rewrite (this_Q2Qc x)
  end.

(** Linear arithmetic on [Qc], through [Q]. *)
Ltac qc_arith :=
  intros; unfold q in *;
  repeat match goal with
  | H : @eq Qc _ _ |- _ => apply Qc_eq_iff in H
  | H : ~ @eq Qc _ _ |- _ => rewrite Qc_eq_iff in H
  | |- @eq Qc _ _ => apply Qc_is_canon
  | |- ~ @eq Qc _ _ => rewrite Qc_eq_iff
  end;
  unfold Qclt, Qcle in *;
  qc_push;
  Lqa.lra.

Lemma ltb_lt (x y : Qc) : (x <? y) = true <-> x < y.
Proof.
  unfold Num.ltb. rewrite Qclt_alt.
  destruct (x ?= y); split; congruence.
Qed.

Lemma ltb_ge (x y : Qc) : (x <? y) = false <-> y <= x.
Proof.
  split; intros H.
  - apply Qcnot_lt_le. intros L. apply ltb_lt in L. congruence.
  - destruct (x <? y) eqn:E; [| reflexivity].
    apply ltb_lt in E. exfalso. exact (Qclt_not_le _ _ E H).
Qed.

Lemma leb_le (x y : Qc) : (x <=? y) = true <-> x <= y.
Proof.
  unfold Num.leb. rewrite Qcle_alt.
  destruct (x ?= y); split; congruence.
Qed.

Lemma leb_gt (x y : Qc) : (x <=? y) = false <-> y < x.
Proof.
  split; intros H.
  - apply Qcnot_le_lt. intros L. apply leb_le in L. congruence.
  - destruct (x <=? y) eqn:E; [| reflexivity].
    apply leb_le in E. exfalso. exact (Qclt_not_le _ _ H E).
Qed.

Lemma eqb_eq (x y : Qc) : (x =? y) = true <-> x = y.
Proof.
  unfold Num.eqb. rewrite Qceq_alt.
  destruct (x ?= y); split; congruence.
Qed.

Lemma eqb_neq (x y : Qc) : (x =? y) = false <-> x <> y.
Proof.
  rewrite <- eqb_eq. destruct (x =? y); split; congruence.
Qed.

(** Case analysis on the comparisons of a goal, each case with the order
    fact it stands for. *)
Ltac qc_cases :=
  repeat match goal with
  | |- context [?x <? ?y] =>
      let E := fresh "E" in
      destruct (x <? y) eqn:E;
      [apply ltb_lt in E | apply ltb_ge in E]
  | |- context [?x <=? ?y] =>
      let E := fresh "E" in
      destruct (x <=? y) eqn:E;
      [apply leb_le in E | apply leb_gt in E]
  | |- context [?x =? ?y] =>
      let E := fresh "E" in
      destruct (x =? y) eqn:E;
      [apply eqb_eq in E | apply eqb_neq in E]
  end.

Ltac qc_hyps :=
  repeat match goal with
  | H : (_ <? _) = true |- _ => apply ltb_lt in H
  | H : (_ <? _) = false |- _ => apply ltb_ge in H
  | H : (_ <=? _) = true |- _ => apply leb_le in H
  | H : (_ <=? _) = false |- _ => apply leb_gt in H
  | H : (_ =? _) = true |- _ => apply eqb_eq in H
  | H : (_ =? _) = false |- _ => apply eqb_neq in H
  end.

Lemma min2_cases (a b : Qc) :
  (b < a /\ Num.min2 a b = b) \/ (a <= b /\ Num.min2 a b = a).
Proof. unfold Num.min2. qc_cases; auto. Qed.

Lemma max2_cases (a b : Qc) :
  (a < b /\ Num.max2 a b = b) \/ (b <= a /\ Num.max2 a b = a).
Proof. unfold Num.max2. qc_cases; auto. Qed.

Lemma region_eqb_eq (r1 r2 : region) : region_eqb r1 r2 = true <-> r1 = r2.
Proof.
  destruct r1 as [a b], r2 as [c d]. unfold region_eqb. simpl.
  rewrite andb_true_iff, !eqb_eq. split.
  - intros [-> ->]. reflexivity.
  - intros [= -> ->]. auto.
Qed.

(* ================================================================== *)
(** * Union of two regions *)

Lemma unionize_None (r1 r2 : region) :
  unionize_regions r1 r2 = None <-> separated r1 r2.
Proof.
  unfold unionize_regions, separated.
  qc_cases; simpl; split; intros H; try discriminate; auto;
    destruct H; exfalso; qc_arith.
Qed.

Lemma unionize_Some (r1 r2 : region) :
  ~ separated r1 r2 ->
  unionize_regions r1 r2 =
    Some (Num.min2 (fst r1) (fst r2), Num.max2 (snd r1) (snd r2)).
Proof.
  intros H. unfold unionize_regions.
  destruct (_ || _) eqn:B; [| reflexivity].
  exfalso. apply H, unionize_None. unfold unionize_regions.
  rewrite B. reflexivity.
Qed.

(** C6.  For regions [r1], [r2] with [start <= end], [unionize_regions]
    returns [None] exactly when [r1.end < r2.start] or [r2.end < r1.start];
    otherwise it returns the pair of the least start and the greatest end;
    regions that share a boundary value are merged. *)
Theorem unionize_regions_spec (r1 r2 : region) :
  well_formed r1 -> well_formed r2 ->
  (unionize_regions r1 r2 = None <->
     snd r1 < fst r2 \/ snd r2 < fst r1) /\
  (~ (snd r1 < fst r2 \/ snd r2 < fst r1) ->
     exists u, unionize_regions r1 r2 = Some u /\
       (fst u = fst r1 \/ fst u = fst r2) /\
       fst u <= fst r1 /\ fst u <= fst r2 /\
       (snd u = snd r1 \/ snd u = snd r2) /\
       snd r1 <= snd u /\ snd r2 <= snd u) /\
  (snd r1 = fst r2 \/ snd r2 = fst r1 ->
     unionize_regions r1 r2 =
       Some (Num.min2 (fst r1) (fst r2), Num.max2 (snd r1) (snd r2))).
Proof.
  unfold well_formed. intros W1 W2. split; [apply unionize_None |]. split.
  - intros H. eexists. split; [apply unionize_Some; exact H |]. simpl.
    destruct (min2_cases (fst r1) (fst r2)) as [[? ->] | [? ->]],
             (max2_cases (snd r1) (snd r2)) as [[? ->] | [? ->]];
      repeat split; auto; qc_arith.
  - intros H. apply unionize_Some. unfold separated.
    intros [S | S]; destruct H as [H | H]; revert S H W1 W2; qc_arith.
Qed.

Lemma unionize_regions_spec_witness :
  unionize_regions (q 0, q 5) (q 5, q 10) = Some (q 0, q 10).
Proof.
  destruct (unionize_regions_spec (q 0, q 5) (q 5, q 10)) as (_ & _ & H).
  - unfold well_formed. simpl. qc_arith.
  - unfold well_formed. simpl. qc_arith.
  - rewrite H; [vm_compute; reflexivity | left; reflexivity].
Defined.

(* ================================================================== *)
(** * Greatest and least element of a sequence *)

Lemma fold_max2_spec (r : list Qc) : forall x,
  let m := fold_left Num.max2 r x in
  (m = x \/ In m r) /\ x <= m /\ forall y, In y r -> y <= m.
Proof.
  induction r as [| a r IH]; intros x; simpl.
  - repeat split; auto using Qcle_refl. intros y [].
  - destruct (IH (Num.max2 x a)) as (Hin & Hge & Hall).
    destruct (max2_cases x a) as [[L E] | [L E]]; rewrite E in *.
    + repeat split.
      * destruct Hin; auto.
      * apply Qcle_trans with a; auto using Qclt_le_weak.
      * intros y [<- | Hy]; auto.
    + repeat split.
      * destruct Hin; auto.
      * assumption.
      * intros y [<- | Hy]; auto. apply Qcle_trans with x; auto.
Qed.

Lemma fold_min2_spec (r : list Qc) : forall x,
  let m := fold_left Num.min2 r x in
  (m = x \/ In m r) /\ m <= x /\ forall y, In y r -> m <= y.
Proof.
  induction r as [| a r IH]; intros x; simpl.
  - repeat split; auto using Qcle_refl. intros y [].
  - destruct (IH (Num.min2 x a)) as (Hin & Hge & Hall).
    destruct (min2_cases x a) as [[L E] | [L E]]; rewrite E in *.
    + repeat split.
      * destruct Hin; auto.
      * apply Qcle_trans with a; auto using Qclt_le_weak.
      * intros y [<- | Hy]; auto.
    + repeat split.
      * destruct Hin; auto.
      * assumption.
      * intros y [<- | Hy]; auto. apply Qcle_trans with x; auto.
Qed.

Lemma list_max_greatest (xs : list Qc) (m : Qc) :
  Num.list_max xs = Some m -> is_greatest xs m.
Proof.
  destruct xs as [| x r]; simpl; intros [= <-].
  destruct (fold_max2_spec r x) as (Hin & Hge & Hall). split.
  - destruct Hin as [-> | Hin]; [left; reflexivity | right; exact Hin].
  - intros y [<- | Hy]; auto.
Qed.

Lemma list_min_least (xs : list Qc) (m : Qc) :
  Num.list_min xs = Some m -> is_least xs m.
Proof.
  destruct xs as [| x r]; simpl; intros [= <-].
  destruct (fold_min2_spec r x) as (Hin & Hge & Hall). split.
  - destruct Hin as [-> | Hin]; [left; reflexivity | right; exact Hin].
  - intros y [<- | Hy]; auto.
Qed.

Lemma list_max_None (xs : list Qc) : Num.list_max xs = None <-> xs = [].
Proof. destruct xs; simpl; split; congruence. Qed.

Lemma list_min_None (xs : list Qc) : Num.list_min xs = None <-> xs = [].
Proof. destruct xs; simpl; split; congruence. Qed.

Lemma list_max_nonempty (xs : list Qc) :
  xs <> [] -> exists m, Num.list_max xs = Some m.
Proof. destruct xs; [congruence | simpl; eauto]. Qed.

Lemma list_min_nonempty (xs : list Qc) :
  xs <> [] -> exists m, Num.list_min xs = Some m.
Proof. destruct xs; [congruence | simpl; eauto]. Qed.

Lemma is_greatest_unique (xs : list Qc) (m m' : Qc) :
  is_greatest xs m -> is_greatest xs m' -> m = m'.
Proof.
  intros [I1 G1] [I2 G2]. apply Qcle_antisym; auto.
Qed.

Lemma is_least_unique (xs : list Qc) (m m' : Qc) :
  is_least xs m -> is_least xs m' -> m = m'.
Proof.
  intros [I1 G1] [I2 G2]. apply Qcle_antisym; auto.
Qed.

Lemma py_max_greatest (xs : list Qc) (m : Qc) :
  is_greatest xs m -> py_max xs = Ok m.
Proof.
  intros G. unfold py_max.
  destruct (Num.list_max xs) as [m' |] eqn:E.
  - apply list_max_greatest in E. f_equal. eapply is_greatest_unique; eauto.
  - apply list_max_None in E. subst. destruct G as [[] _].
Qed.

Lemma len_nonzero (vs : list Qc) : vs <> [] -> (Num.len vs =? 0) = false.
Proof.
  intros H. apply eqb_neq. unfold Num.len. intros E.
  apply Qc_eq_iff in E. rewrite this_Q2Qc in E.
  destruct vs as [| v r]; [congruence |].
  simpl List.length in E. unfold Qeq in E. simpl in E. lia.
Qed.

Lemma py_div_len (vs : list Qc) :
  vs <> [] -> py_div (Num.sum vs) (Num.len vs) = Ok (average vs).
Proof.
  intros H. unfold py_div. rewrite (len_nonzero vs H). reflexivity.
Qed.


Lemma abs_scale (x : Qc) : Num.abs (x * q 1000) = Num.abs x * q 1000.
Proof.
  unfold Num.abs. qc_cases; try reflexivity; revert E E0; qc_arith.
Qed.

(* ================================================================== *)
(** * The threshold evaluator *)

Lemma Qcle_Rle (x y : Qc) : x <= y <-> (Q2R x <= Q2R y)%R.
Proof. split; [apply Qle_Rle | apply Rle_Qle]. Qed.

Lemma five_sqrt2 (x : R) : (x <= 5 * sqrt 2 <-> x <= 0 \/ x * x <= 50)%R.
Proof.
  assert (S := sqrt_sqrt 2 ltac:(Lra.lra)).
  assert (P := sqrt_lt_R0 2 ltac:(Lra.lra)).
  split.
  - intros H. destruct (Rle_dec x 0); [left; assumption | right; Lra.nra].
  - intros [H | H]; Lra.nra.
Qed.

(** [le_limit] decides the comparison with the limit as a real number. *)
Lemma le_limit_real (peak : Qc) (l : limit) :
  le_limit peak l = true <-> (Q2R peak <= limit_real l)%R.
Proof.
  destruct l as [x |]; simpl.
  - rewrite leb_le. apply Qcle_Rle.
  - rewrite five_sqrt2, orb_true_iff, !leb_le, !Qcle_Rle.
    unfold q. rewrite (Qeq_eqR _ _ (this_mult peak peak)), Q2R_mult.
    rewrite (Qeq_eqR _ _ (this_Q2Qc 50)).
    replace (Q2R 50) with 50%R by (unfold Q2R; simpl; Lra.lra).
    replace (Q2R 0%Qc) with 0%R by (unfold Q2R; simpl; Lra.lra).
    reflexivity.
Qed.


Lemma readings_nonempty (i : Interpretation) (vs : list Qc) :
  vs <> [] -> readings i vs <> [].
Proof. destruct i, vs; simpl; congruence. Qed.

(** The peak and the mean the code works with, once the values are known to
    be non-empty. *)
Lemma current_unfold (vs : list Qc) (i : Interpretation) (pk : Qc) :
  vs <> [] -> is_greatest (readings i vs) pk ->
  Analyzer.is_current_below_letgo (Some vs) (Some i) (Some UL1400_1_ISSUE_1) =
    let peak_ma := pk * q 1000 in
    let mean_ma := mean_reading i vs * q 1000 in
    if mean_ma <? 0 then Raise (ValueError NegativeDC)
    else if mean_ma <=? q 4.21 then Ok (Some (le_limit peak_ma FiveSqrt2))
    else if mean_ma <=? q 30 then
      match i with
      | STRICT => Ok (Some (le_limit peak_ma (Lim (q 33.3 + q 0.89 * mean_ma))))
      | _ => Ok (Some (le_limit peak_ma (Lim (q 3.33 + q 0.89 * mean_ma))))
      end
    else if Analyzer.strict_level i then Raise (ValueError AboveCeilingDC)
    else Ok (Some false).
Proof.
  intros NE G. unfold Analyzer.is_current_below_letgo.
  destruct (list_max_nonempty vs NE) as [m Hm].
  unfold py_max at 1. rewrite Hm. cbn [bind].
  rewrite (py_div_len vs NE). cbn [bind].
  destruct i; cbn [Analyzer.magnitude_level readings mean_reading] in *.
  - rewrite (is_greatest_unique _ _ _ G (list_max_greatest _ _ Hm)).
    reflexivity.
  - rewrite (is_greatest_unique _ _ _ G (list_max_greatest _ _ Hm)).
    reflexivity.
  - rewrite (py_max_greatest _ _ G). cbn [bind fst snd].
    rewrite abs_scale. reflexivity.
  - rewrite (py_max_greatest _ _ G). cbn [bind fst snd].
    rewrite abs_scale. reflexivity.
Qed.



Lemma readings_greatest (i : Interpretation) (vs : list Qc) :
  vs <> [] -> exists pk, is_greatest (readings i vs) pk.
Proof.
  intros NE.
  destruct (list_max_nonempty _ (readings_nonempty i vs NE)) as [pk H].
  exists pk. apply list_max_greatest, H.
Qed.

Lemma bad_env_valid (env : option string) :
  Analyzer.bad_env env = false <-> valid_env env.
Proof.
  unfold Analyzer.bad_env, valid_env. destruct env as [e |].
  - rewrite negb_false_iff, orb_true_iff, !String.eqb_eq.
    split; (intros [H | H]; [left | right]); congruence.
  - split; [discriminate | intros [H | H]; discriminate].
Qed.

(** The voltage evaluator on non-empty values in a valid environment. *)
Lemma voltage_unfold (vs : list Qc) (env : string) (i : Interpretation)
  (pk : Qc) :
  vs <> [] -> env = "wet"%string \/ env = "dry"%string ->
  is_greatest (readings i vs) pk ->
  Analyzer.is_voltage_below_letgo (Some vs) (Some env) (Some i)
    (Some UL1400_1_ISSUE_1) =
    let mean := mean_reading i vs in
    let above :=
      if Analyzer.strict_level i then Raise (ValueError AboveCeilingDC)
      else Ok (Some false) in
    if mean <? 0 then Raise (ValueError NegativeDC)
    else if String.eqb env "wet" then
      if mean <=? q 10.4 then Ok (Some (pk <=? q 21.2))
      else if mean <=? q 30 then Ok (Some (pk <=? q 16.5 + q 0.45 * mean))
      else above
    else
      if mean <=? q 20.9 then Ok (Some (pk <=? q 42.4))
      else if mean <=? q 60 then Ok (Some (pk <=? q 33 + q 0.45 * mean))
      else above.
Proof.
  intros NE V G. unfold Analyzer.is_voltage_below_letgo.
  assert (B : Analyzer.bad_env (Some env) = false).
  { apply bad_env_valid. destruct V; [left | right]; congruence. }
  rewrite B.
  destruct (list_max_nonempty vs NE) as [m Hm].
  unfold py_max at 1. rewrite Hm. cbn [bind].
  rewrite (py_div_len vs NE). cbn [bind].
  assert (P : (if Analyzer.magnitude_level i
               then m' <- py_max (map Num.abs vs);;
                    Ok (m', Num.abs (average vs))
               else Ok (m, average vs)) = Ok (pk, mean_reading i vs)).
  { destruct i; cbn [Analyzer.magnitude_level readings mean_reading] in *.
    - rewrite (is_greatest_unique _ _ _ G (list_max_greatest _ _ Hm)).
      reflexivity.
    - rewrite (is_greatest_unique _ _ _ G (list_max_greatest _ _ Hm)).
      reflexivity.
    - rewrite (py_max_greatest _ _ G). reflexivity.
    - rewrite (py_max_greatest _ _ G). reflexivity. }
  rewrite P. cbn [bind fst snd]. cbv zeta.
  destruct V; subst env; reflexivity.
Qed.

Lemma abs_cases (x : Qc) :
  (x < 0 /\ Num.abs x = - x) \/ (0 <= x /\ Num.abs x = x).
Proof. unfold Num.abs. qc_cases; auto. Qed.






(** C4, as the code has it.  With values present (even an empty list) and a
    measurement kind of current or voltage, an unsupported standard version,
    an interpretation outside the four levels, or (for voltage) an
    environment that is neither wet nor dry makes the evaluator raise a
    configuration [ValueError] before it reads the values; with the values
    absent it returns [None] and checks nothing. *)
Theorem refused_config_raises (measurement_type : string) (vs : list Qc)
  (env_conditions : option string) (interpretation : option Interpretation)
  (standard_version : option StandardVersion) :
  measurement_type = "current"%string \/ measurement_type = "voltage"%string ->
  refused_config measurement_type env_conditions interpretation
    standard_version ->
  (exists e,
     Analyzer.is_below_letgo measurement_type (Some vs) env_conditions
       interpretation standard_version = Raise e /\ ConfigurationError e) /\
  Analyzer.is_below_letgo measurement_type None env_conditions
    interpretation standard_version = Ok None.
Proof.
  intros K R. unfold ConfigurationError. split.
  - destruct K; subst measurement_type; cbn [Analyzer.is_below_letgo String.eqb
      Ascii.eqb Bool.eqb].
    + unfold Analyzer.is_current_below_letgo.
      destruct standard_version as [[] |]; [| eauto].
      destruct interpretation; [| eauto].
      destruct R as [R | [R | [R _]]]; discriminate.
    + unfold Analyzer.is_voltage_below_letgo.
      destruct standard_version as [[] |]; [| eauto].
      destruct interpretation; [| eauto 6].
      destruct R as [R | [R | [_ R]]]; try discriminate.
      destruct (Analyzer.bad_env env_conditions) eqn:B; [eauto 6 |].
      apply bad_env_valid in B. contradiction.
  - destruct K; subst measurement_type; reflexivity.
Qed.

Lemma refused_config_raises_witness :
  exists e,
    Analyzer.is_below_letgo "voltage" (Some [q 1]) (Some "damp"%string)
      (Some STRICT) (Some UL1400_1_ISSUE_1) = Raise e /\
    ConfigurationError e.
Proof.
  apply (refused_config_raises "voltage" [q 1] (Some "damp"%string)
           (Some STRICT) (Some UL1400_1_ISSUE_1)).
  - right. reflexivity.
  - right. right. split; [reflexivity |].
    intros [H | H]; discriminate.
Defined.

(** C4 as stated fails: with the values absent, an unsupported standard
    version or a bad environment raises nothing; the answer is [None]. *)
Lemma refused_config_absent_values_returns :
  refused_config "current" None (Some STRICT) None /\
  Analyzer.is_below_letgo "current" None None (Some STRICT) None = Ok None /\
  refused_config "voltage" (Some "damp"%string) None None /\
  Analyzer.is_below_letgo "voltage" None (Some "damp"%string) None None
    = Ok None.
Proof.
  repeat split; try reflexivity; left; reflexivity.
Qed.

(* ================================================================== *)
(** * Segment extraction *)

Lemma dict_get_In (k : Qc) (w : wave) :
  In k (keys w) -> exists v, dict_get k w = Ok v /\ In (k, v) w.
Proof.
  induction w as [| [k' v'] w IH]; simpl; [intros [] |].
  intros H. destruct (k' =? k) eqn:E.
  - apply eqb_eq in E. subst k'. eauto.
  - apply eqb_neq in E. destruct H as [H | H]; [contradiction |].
    destruct (IH H) as (v & Hv & Hin). eauto.
Qed.

Lemma dict_set_fresh (k v : Qc) (seg : wave) :
  ~ In k (keys seg) -> dict_set k v seg = seg ++ [(k, v)].
Proof.
  induction seg as [| [k' v'] seg IH]; simpl; [reflexivity |].
  intros H. destruct (k' =? k) eqn:E.
  - apply eqb_eq in E. tauto.
  - rewrite IH; tauto.
Qed.

Lemma in_keys (p : Qc * Qc) (w : wave) : In p w -> In (fst p) (keys w).
Proof. apply in_map. Qed.

Lemma keys_filter_In (f : Qc -> bool) (w : wave) (t : Qc) :
  In t (keys (filter (fun p => f (fst p)) w)) <-> In t (keys w) /\ f t = true.
Proof.
  unfold keys. rewrite !in_map_iff. split.
  - intros ([k v] & <- & H). apply filter_In in H. simpl in *.
    destruct H. split; [exists (k, v) |]; auto.
  - intros [([k v] & <- & H) F]. exists (k, v). split; [reflexivity |].
    apply filter_In. auto.
Qed.

Lemma filter_length_lt {A : Type} (f g : A -> bool) (l : list A) (a : A) :
  (forall x, f x = true -> g x = true) ->
  In a l -> g a = true -> f a = false ->
  (List.length (filter f l) < List.length (filter g l))%nat.
Proof.
  intros Hfg. induction l as [| x l IH]; simpl; [intros [] |].
  assert (Hle : (List.length (filter f l) <= List.length (filter g l))%nat).
  { clear IH. induction l as [| y l IH]; simpl; [lia |].
    destruct (f y) eqn:Fy.
    - rewrite (Hfg y Fy). simpl. lia.
    - destruct (g y); simpl; lia. }
  intros [-> | Hin] Ga Fa.
  - rewrite Ga, Fa. simpl. lia.
  - specialize (IH Hin Ga Fa). destruct (f x) eqn:Fx.
    + rewrite (Hfg x Fx). simpl. lia.
    + destruct (g x); simpl; lia.
Qed.

(** What a turn of the loop does when extending beyond the start. *)
Lemma segment_turn_start (w : wave) (d : Qc) (seg : wave) :
  match segment_turn w d "start" seg with
  | Return r =>
      (r = Ok None /\
       (seg = [] \/
        exists hi lo, is_greatest (keys seg) hi /\ is_least (keys seg) lo /\
          hi - lo < d /\ forall t, In t (keys w) -> lo <= t)) \/
      (r = Ok (Some seg) /\
       exists hi lo, is_greatest (keys seg) hi /\ is_least (keys seg) lo /\
         d <= hi - lo)
  | Continue seg' =>
      exists hi lo nxt v,
        is_greatest (keys seg) hi /\ is_least (keys seg) lo /\
        hi - lo < d /\ nxt < lo /\ In (nxt, v) w /\
        seg' = seg ++ [(nxt, v)]
  end.
Proof.
  unfold segment_turn.
  destruct (Num.list_max (keys seg)) as [hi |] eqn:Hhi.
  2: { left. split; [reflexivity |]. left.
       apply list_max_None in Hhi. destruct seg; [reflexivity | discriminate]. }
  destruct (Num.list_min (keys seg)) as [lo |] eqn:Hlo.
  2: { apply list_min_None in Hlo. rewrite Hlo in Hhi. discriminate. }
  apply list_max_greatest in Hhi. apply list_min_least in Hlo.
  destruct (hi - lo <? d) eqn:Hd.
  2: { apply ltb_ge in Hd. right. split; [reflexivity |]. eauto. }
  apply ltb_lt in Hd. cbn [String.eqb Ascii.eqb Bool.eqb].
  destruct (Num.list_max (keys (filter (fun p => fst p <? lo) w)))
    as [nxt |] eqn:Hn.
  - apply list_max_greatest in Hn. destruct Hn as [Hin _].
    apply (keys_filter_In (fun t => t <? lo)) in Hin.
    destruct Hin as [Hin Hlt]. apply ltb_lt in Hlt.
    destruct (dict_get_In nxt w Hin) as (v & -> & Hv).
    exists hi, lo, nxt, v. repeat split; try apply Hhi; try apply Hlo; auto.
    apply dict_set_fresh. intros C. apply Hlo in C.
    exact (Qclt_not_le _ _ Hlt C).
  - left. split; [reflexivity |]. right. exists hi, lo.
    repeat split; try apply Hhi; try apply Hlo; auto.
    intros t Ht. apply Qcnot_lt_le. intros C.
    apply list_max_None in Hn.
    assert (In t (keys (filter (fun p => fst p <? lo) w))).
    { apply (keys_filter_In (fun t => t <? lo)). split; auto.
      apply ltb_lt. exact C. }
    rewrite Hn in H. destruct H.
Qed.

Lemma window_In (w : wave) (s e : Qc) (p : Qc * Qc) :
  In p (window w s e) <-> In p w /\ s <= fst p /\ fst p <= e.
Proof.
  unfold window. rewrite filter_In, andb_true_iff, !leb_le. tauto.
Qed.

Lemma holds_window_init (w : wave) (s e : Qc) :
  holds_window w s e (window w s e).
Proof.
  split; [auto |]. intros p H. apply window_In in H. tauto.
Qed.


Lemma greatest_snoc (xs : list Qc) (hi lo x : Qc) :
  is_greatest xs hi -> is_least xs lo -> x < lo ->
  is_greatest (xs ++ [x]) hi /\ is_least (xs ++ [x]) x.
Proof.
  intros [Hin Hhi] [Lin Hlo] Hx.
  assert (lo <= hi) by auto.
  split; split.
  - apply in_or_app. auto.
  - intros y Hy. apply in_app_or in Hy. destruct Hy as [Hy | [<- | []]]; auto.
    revert Hx H. qc_arith.
  - apply in_or_app. right. left. reflexivity.
  - intros y Hy. apply in_app_or in Hy.
    destruct Hy as [Hy | [<- | []]]; [| apply Qcle_refl].
    specialize (Hlo y Hy). revert Hx Hlo. qc_arith.
Qed.

Lemma keys_app (a b : wave) : keys (a ++ b) = keys a ++ keys b.
Proof. apply map_app. Qed.

(** The loop of the extension beyond the start: within a number of turns
    bounded by the points before the segment, it returns; a segment it
    returns holds the window and spans [d]; when it returns [None], the last
    segment held the window, had the window's latest time, spanned less than
    [d], and no point of the waveform was before it. *)
Lemma segment_loop_start (w : wave) (s e d : Qc) : forall n seg lo,
  holds_window w s e seg ->
  is_least (keys seg) lo ->
  (List.length (filter (fun p => (fst p <? lo)%Qc) w) < n)%nat ->
  exists r, segment_loop n w d "start" seg = Ok r /\
    match r with
    | Some seg' => holds_window w s e seg' /\ spans seg' d
    | None =>
        exists hi lo', is_greatest (keys seg) hi /\ hi - lo' < d /\
          forall t, In t (keys w) -> lo' <= t
    end.
Proof.
  induction n as [| n IH]; intros seg lo Inv Hlo Hn; [lia |].
  cbn [segment_loop].
  assert (T := segment_turn_start w d seg).
  destruct (segment_turn w d "start" seg) as [seg' | r].
  - destruct T as (hi & lo0 & nxt & v & Hhi & Hlo0 & Hd & Hlt & Hin & ->).
    assert (lo0 = lo) by (eapply is_least_unique; eauto). subst lo0.
    destruct (greatest_snoc _ _ _ nxt Hhi Hlo Hlt) as [G L].
    change [nxt] with (keys [(nxt, v)]) in G, L.
    rewrite <- (keys_app seg [(nxt, v)]) in G, L.
    destruct (IH (seg ++ [(nxt, v)]) nxt) as (r & Hr & Hspec).
    + destruct Inv as [I1 I2]. split.
      * intros p Hp. apply in_or_app. auto.
      * intros p Hp. apply in_app_or in Hp.
        destruct Hp as [Hp | [<- | []]]; [auto |]. split; [exact Hin |].
        simpl. destruct Hlo as [Lin _]. unfold keys in Lin.
        apply in_map_iff in Lin. destruct Lin as (p0 & E0 & Hp0).
        destruct (I2 p0 Hp0) as [_ He]. rewrite E0 in He.
        revert Hlt He. qc_arith.
    + exact L.
    + assert (List.length (filter (fun p => (fst p <? nxt)%Qc) w) <
              List.length (filter (fun p => (fst p <? lo)%Qc) w))%nat; [| lia].
      apply (filter_length_lt _ _ w (nxt, v)); auto.
      * intros x Hx. apply ltb_lt in Hx. apply ltb_lt.
        apply Qclt_trans with nxt; auto.
      * apply ltb_lt. exact Hlt.
      * apply ltb_ge. apply Qcle_refl.
    + exists r. split; [exact Hr |]. destruct r as [seg' |]; [exact Hspec |].
      destruct Hspec as (hi' & lo' & G' & Hd' & Hall).
      exists hi, lo'. repeat split; try apply Hhi; auto.
      assert (hi' = hi) by (eapply is_greatest_unique; eauto). subst. auto.
  - destruct T as [[-> [-> | (hi & lo0 & Hhi & Hlo0 & Hd & Hall)]]
                  | [-> Hsp]].
    + destruct Hlo as [[] _].
    + exists None. split; [reflexivity |]. exists hi, lo0. auto.
    + exists (Some seg). split; [reflexivity |]. split; assumption.
Qed.

Lemma segment_loop_empty (n : nat) (w : wave) (d : Qc) (dir : string) :
  segment_loop (S n) w d dir [] = Ok None.
Proof. reflexivity. Qed.

Lemma least_exists (seg : wave) :
  seg <> [] -> exists lo, is_least (keys seg) lo.
Proof.
  intros H. destruct (list_min_nonempty (keys seg)) as [lo Hlo].
  - destruct seg; [congruence | discriminate].
  - exists lo. apply list_min_least, Hlo.
Qed.

Lemma greatest_exists (seg : wave) :
  seg <> [] -> exists hi, is_greatest (keys seg) hi.
Proof.
  intros H. destruct (list_max_nonempty (keys seg)) as [hi Hhi].
  - destruct seg; [congruence | discriminate].
  - exists hi. apply list_max_greatest, Hhi.
Qed.


(** Extending beyond the start, the function returns, and raises nothing. *)
Lemma get_segment_start_total (waveform : option wave) (s e d : Qc) :
  exists r, get_segment_from_waveform waveform s e d "start" = Ok r.
Proof.
  destruct waveform as [w |]; [| exists None; reflexivity].
  unfold get_segment_from_waveform, get_segment_fuel.
  destruct (window w s e) as [| p0 win] eqn:Hwin; [exists None; reflexivity |].
  assert (NE : window w s e <> []) by (rewrite Hwin; discriminate).
  rewrite <- Hwin.
  destruct (least_exists _ NE) as [lo Hlo].
  destruct (segment_loop_start w s e d (S (List.length w)) (window w s e) lo
              (holds_window_init w s e) Hlo) as (r & Hr & _); [| eauto].
  pose proof (filter_length_le (fun p => (fst p <? lo)%Qc) w). lia.
Qed.



(* ================================================================== *)
(** * Termination of the extension loop *)

Lemma segment_loop_mono (w : wave) (d : Qc) (dir : string) :
  forall n m seg r, (n <= m)%nat ->
  segment_loop n w d dir seg = r -> r <> Diverge ->
  segment_loop m w d dir seg = r.
Proof.
  induction n as [| n IH]; intros m seg r Hnm Hr Hd.
  - simpl in Hr. congruence.
  - destruct m as [| m]; [lia |]. cbn [segment_loop] in *.
    destruct (segment_turn w d dir seg); [| exact Hr].
    apply IH; [lia | exact Hr | exact Hd].
Qed.

(** What a turn of the loop does when extending beyond the end. *)
Lemma segment_turn_end (w : wave) (d : Qc) (seg : wave) :
  match segment_turn w d "end" seg with
  | Return r => exists o, r = Ok o
  | Continue seg' =>
      exists hi nxt v,
        is_greatest (keys seg) hi /\ hi < nxt /\ In (nxt, v) w /\
        is_greatest (keys seg') nxt
  end.
Proof.
  unfold segment_turn.
  destruct (Num.list_max (keys seg)) as [hi |] eqn:Hhi; [| eauto].
  destruct (Num.list_min (keys seg)) as [lo |] eqn:Hlo; [| eauto].
  apply list_max_greatest in Hhi.
  destruct (hi - lo <? d); [| eauto].
  cbn [String.eqb Ascii.eqb Bool.eqb].
  destruct (Num.list_min (keys (filter (fun p => hi <? fst p) w)))
    as [nxt |] eqn:Hn; [| eauto].
  apply list_min_least in Hn. destruct Hn as [Hin _].
  apply (keys_filter_In (fun t => hi <? t)) in Hin.
  destruct Hin as [Hin Hlt]. apply ltb_lt in Hlt.
  destruct (dict_get_In nxt w Hin) as (v & -> & Hv).
  exists hi, nxt, v.
  split; [exact Hhi |]. split; [exact Hlt |]. split; [exact Hv |].
  rewrite dict_set_fresh.
  2: { intros C. apply Hhi in C. exact (Qclt_not_le _ _ Hlt C). }
  rewrite keys_app. split.
  - apply in_or_app. right. left. reflexivity.
  - intros x Hx. apply in_app_or in Hx.
    destruct Hx as [Hx | [<- | []]]; [| apply Qcle_refl].
    apply Hhi in Hx. revert Hx Hlt. qc_arith.
Qed.

Lemma segment_loop_end_returns (w : wave) (d : Qc) : forall n seg hi,
  is_greatest (keys seg) hi ->
  (List.length (filter (fun p => (hi <? fst p)%Qc) w) < n)%nat ->
  exists o, segment_loop n w d "end" seg = Ok o.
Proof.
  induction n as [| n IH]; intros seg hi Hhi Hn; [lia |].
  cbn [segment_loop].
  assert (T := segment_turn_end w d seg).
  destruct (segment_turn w d "end" seg) as [seg' | r]; [| exact T].
  destruct T as (hi0 & nxt & v & Hhi0 & Hlt & Hin & G).
  assert (hi0 = hi) by (eapply is_greatest_unique; eauto). subst hi0.
  apply (IH seg' nxt G).
  assert (List.length (filter (fun p => (nxt <? fst p)%Qc) w) <
          List.length (filter (fun p => (hi <? fst p)%Qc) w))%nat; [| lia].
  apply (filter_length_lt _ _ w (nxt, v)); auto.
  - intros x Hx. apply ltb_lt in Hx. apply ltb_lt.
    apply Qclt_trans with nxt; auto.
  - apply ltb_lt. exact Hlt.
  - apply ltb_ge. apply Qcle_refl.
Qed.

(** With a direction that is neither ["start"] nor ["end"], a turn either
    leaves the loop or changes nothing. *)
Lemma segment_turn_other (w : wave) (d : Qc) (dir : string) (seg : wave) :
  dir <> "start"%string -> dir <> "end"%string ->
  match segment_turn w d dir seg with
  | Return r => exists o, r = Ok o
  | Continue seg' =>
      seg' = seg /\
      exists hi lo, is_greatest (keys seg) hi /\ is_least (keys seg) lo /\
                    hi - lo < d
  end.
Proof.
  intros Hs He. apply String.eqb_neq in Hs, He.
  unfold segment_turn.
  destruct (Num.list_max (keys seg)) as [hi |] eqn:Hhi; [| eauto].
  destruct (Num.list_min (keys seg)) as [lo |] eqn:Hlo; [| eauto].
  destruct (hi - lo <? d) eqn:Hd; [| eauto].
  rewrite Hs, He. split; [reflexivity |].
  exists hi, lo. apply ltb_lt in Hd.
  auto using list_max_greatest, list_min_least.
Qed.

Lemma segment_loop_stuck (w : wave) (d : Qc) (dir : string) (seg : wave) :
  segment_turn w d dir seg = Continue seg ->
  forall n, segment_loop n w d dir seg = Diverge.
Proof.
  intros H. induction n as [| n IH]; [reflexivity |].
  cbn [segment_loop]. rewrite H. exact IH.
Qed.

(** The number of turns [get_segment_from_waveform] allows decides the call:
    whatever a run with any number of turns returns, it returns. *)
Lemma get_segment_fuel_enough (n : nat) (waveform : option wave)
  (s e d : Qc) (dir : string) (r : outcome (option wave)) :
  get_segment_fuel n waveform s e d dir = r -> r <> Diverge ->
  get_segment_from_waveform waveform s e d dir = r.
Proof.
  unfold get_segment_from_waveform.
  destruct waveform as [w |]; [| auto].
  unfold get_segment_fuel. intros Hr Hd.
  destruct n as [| n]; [simpl in Hr; congruence |].
  destruct (window w s e) as [| p0 win] eqn:Hwin; [exact Hr |].
  assert (NE : window w s e <> []) by (rewrite Hwin; discriminate).
  rewrite <- Hwin in *.
  assert (T : exists o, segment_loop (S (List.length w)) w d dir
                          (window w s e) = Ok o).
  { destruct (string_dec dir "start") as [-> | Hs].
    - destruct (least_exists _ NE) as [lo Hlo].
      destruct (segment_loop_start w s e d (S (List.length w)) (window w s e)
                  lo (holds_window_init w s e) Hlo) as (o & Ho & _); eauto.
      pose proof (filter_length_le (fun p => (fst p <? lo)%Qc) w). lia.
    - destruct (string_dec dir "end") as [-> | He].
      + destruct (greatest_exists _ NE) as [hi Hhi].
        apply (segment_loop_end_returns w d _ _ hi Hhi).
        pose proof (filter_length_le (fun p => (hi <? fst p)%Qc) w). lia.
      + assert (O := segment_turn_other w d dir (window w s e) Hs He).
        cbn [segment_loop] in *.
        destruct (segment_turn w d dir (window w s e)) as [seg' | r0] eqn:E.
        * destruct O as [-> _].
          rewrite (segment_loop_stuck w d dir _ E) in Hr. congruence.
        * exact O. }
  destruct T as [o Ho].
  destruct (Nat.le_ge_cases (S n) (S (List.length w))) as [L | L].
  - apply (segment_loop_mono w d dir _ _ _ _ L Hr Hd).
  - rewrite Ho.
    rewrite (segment_loop_mono w d dir _ _ _ _ L Ho) in Hr;
      [exact Hr | discriminate].
Qed.



(* ================================================================== *)
(** * The window search on waveforms shorter than the window *)





(* ================================================================== *)
(** * The serial variant against the parallel one *)

(** The evaluator of the serial variant is the parallel variant's at
    [TYPOS]. *)
Lemma serial_evaluator_is_typos (measurement_type : string)
  (segment_values : option (list Qc)) (env_conditions : option string) :
  LetGo.is_below_letgo measurement_type segment_values env_conditions =
  Analyzer.is_below_letgo measurement_type segment_values env_conditions
    (Some TYPOS) (Some UL1400_1_ISSUE_1).
Proof.
  unfold LetGo.is_below_letgo, Analyzer.is_below_letgo.
  destruct (String.eqb measurement_type "current").
  - destruct segment_values as [vs |]; [| reflexivity].
    unfold LetGo.is_current_below_letgo, Analyzer.is_current_below_letgo.
    destruct (py_max vs); reflexivity.
  - destruct (String.eqb measurement_type "voltage"); [| reflexivity].
    destruct segment_values as [vs |]; [| reflexivity].
    unfold LetGo.is_voltage_below_letgo, Analyzer.is_voltage_below_letgo.
    destruct (Analyzer.bad_env env_conditions); [reflexivity |].
    destruct (py_max vs); reflexivity.
Qed.

Lemma pool_starmap_all_none {A B : Type} (f : A -> outcome (option B))
  (args : list A) :
  (forall a, In a args -> f a = Ok None) ->
  exists results, pool_starmap f args = Ok results /\ not_none results = [].
Proof.
  induction args as [| a rest IH]; intros H.
  - exists []. split; reflexivity.
  - destruct IH as (rs & Hrs & Hn); [intros x Hx; apply H; right; exact Hx |].
    exists (None :: rs). cbn [pool_starmap].
    rewrite (H a (or_introl eq_refl)), Hrs. split; [reflexivity | exact Hn].
Qed.

(** A turn of the serial search that does not raise has found no region in
    its window. *)
Lemma search_body_ok (mt : string) (w : wave) (env : option string)
  (d : Qc) (s s1 : LetGo.search) :
  LetGo.working_region s = None ->
  LetGo.search_body mt w env d (LetGo.target_end_time s - d) s = Ok s1 ->
  Parallel._analyze_segment mt (Some w) (LetGo.target_end_time s - d)
    (LetGo.target_end_time s) d env (Some TYPOS) (Some UL1400_1_ISSUE_1)
    = Ok None /\
  LetGo.working_region s1 = None /\
  LetGo.time_regions_below_letgo s1 = LetGo.time_regions_below_letgo s /\
  match Num.list_max
          (filter (fun t => t <? LetGo.target_end_time s) (keys w)) with
  | Some e' =>
      LetGo.target_end_time s1 = e' /\
      LetGo.target_start_time s1 = Some (e' - d)
  | None =>
      LetGo.target_end_time s1 = LetGo.target_end_time s /\
      LetGo.target_start_time s1 = None
  end.
Proof.
  intros Hw. unfold LetGo.search_body, Parallel._analyze_segment.
  destruct (get_segment_from_waveform (Some w) (LetGo.target_end_time s - d)
              (LetGo.target_end_time s) d "start") as [[seg |] | |];
    cbn [bind]; try discriminate.
  rewrite serial_evaluator_is_typos.
  destruct (Analyzer.is_below_letgo mt (Some (values seg)) env (Some TYPOS)
              (Some UL1400_1_ISSUE_1)) as [b | |]; cbn [bind];
    try discriminate.
  destruct (truthy b).
  - unfold LetGo.min_of_keys_and_max.
    destruct (py_max (keys seg)); cbn [bind]; discriminate.
  - rewrite Hw. cbn [bind fst snd].
    destruct (Num.list_max _); intros [= <-]; simpl; auto.
Qed.

Lemma search_loop_ok (mt : string) (w : wave) (env : option string)
  (d min_start : Qc) : forall n s s',
  search_inv mt w env d min_start s ->
  LetGo.search_loop n mt w env d min_start s = Ok s' ->
  LetGo.working_region s' = None /\
  LetGo.time_regions_below_letgo s' = LetGo.time_regions_below_letgo s /\
  forall k, In k (keys w) -> no_region_at mt w env d min_start k.
Proof.
  induction n as [| n IH]; intros s s' [Hw Inv] Hrun; [discriminate |].
  cbn [LetGo.search_loop] in Hrun. unfold LetGo.search_turn in Hrun.
  destruct (LetGo.target_start_time s) as [ts |] eqn:Hts.
  2: { injection Hrun as <-. auto. }
  destruct Inv as [-> Inv].
  destruct (min_start <=? LetGo.target_end_time s - d) eqn:Hc.
  2: { injection Hrun as <-. repeat split; auto.
       intros k Hk. apply leb_gt in Hc.
       destruct (Qclt_le_dec (LetGo.target_end_time s) k) as [L | L];
         [auto |].
       intros C. exfalso. revert Hc L C. qc_arith. }
  destruct (LetGo.search_body mt w env d (LetGo.target_end_time s - d) s)
    as [s1 | |] eqn:Hb; try discriminate.
  destruct (search_body_ok mt w env d s s1 Hw Hb) as (Hq & Hw1 & Hf1 & Hnext).
  destruct (IH s1 s') as (Hw' & Hf' & Hall); [| exact Hrun |].
  - split; [exact Hw1 |].
    assert (Hte : forall k, In k (keys w) -> LetGo.target_end_time s <= k ->
                    no_region_at mt w env d min_start k).
    { intros k Hk Hle. destruct (Qcle_lt_or_eq _ _ Hle) as [L | <-];
        [auto | intros _; exact Hq]. }
    destruct (Num.list_max
                (filter (fun t => t <? LetGo.target_end_time s) (keys w)))
      as [e' |] eqn:Hmax.
    + destruct Hnext as [-> ->]. split; [reflexivity |].
      intros k Hk Hlt. apply Hte; [exact Hk |].
      apply Qcnot_lt_le. intros C.
      apply list_max_greatest in Hmax. destruct Hmax as [_ Hge].
      assert (k <= e').
      { apply Hge. apply filter_In. split; [exact Hk |].
        apply ltb_lt. exact C. }
      exact (Qclt_not_le _ _ Hlt H).
    + destruct Hnext as [_ ->]. intros k Hk. apply Hte; [exact Hk |].
      apply Qcnot_lt_le. intros C. apply list_max_None in Hmax.
      assert (In k (filter (fun t => t <? LetGo.target_end_time s) (keys w))).
      { apply filter_In. split; [exact Hk |]. apply ltb_lt. exact C. }
      rewrite Hmax in H. destruct H.
  - repeat split; auto. congruence.
Qed.

(** A pass of the serial search that returns has added no region, and the
    pass of the parallel search at [TYPOS] on the same waveform adds none. *)
Lemma serial_pass_ok (n : Z) (mt : string) (w : wave) (env : option string)
  (start_time : option Qc) (d : Qc) (found found' : list region) :
  (1 <= n)%Z ->
  LetGo.pass mt w env start_time d found = Ok found' ->
  found' = found /\
  Parallel.pass n mt w env start_time d (Some TYPOS) (Some UL1400_1_ISSUE_1)
    found = Ok found.
Proof.
  intros Hn. unfold LetGo.pass, Parallel.pass.
  destruct (floor_time start_time w) as [fl | |]; cbn [bind];
    try discriminate.
  destruct (py_max (keys w)) as [hi | |] eqn:Hhi; cbn [bind];
    try discriminate.
  match goal with
  | |- context [LetGo.search_loop ?m mt w env d fl ?s0] =>
      destruct (LetGo.search_loop m mt w env d fl s0) as [s' | |] eqn:Hrun;
      cbn [bind]; try discriminate;
      destruct (search_loop_ok mt w env d fl m s0 s') as (Hw & Hf & Hall);
      [| exact Hrun |]
  end.
  - split; [reflexivity |]. cbn [LetGo.target_start_time LetGo.target_end_time].
    split; [reflexivity |]. intros k Hk Hlt. exfalso.
    unfold py_max in Hhi.
    destruct (Num.list_max (keys w)) as [hi' |] eqn:E; [| discriminate].
    injection Hhi as ->. apply list_max_greatest in E.
    destruct E as [_ Hge]. exact (Qclt_not_le _ _ Hlt (Hge k Hk)).
  - rewrite Hw. cbn [LetGo.time_regions_below_letgo] in Hf.
    intros [= <-]. split; [exact Hf |].
    replace (n <? 1)%Z with false by (symmetry; apply Z.ltb_ge; exact Hn).
    destruct (pool_starmap_all_none
                (fun t => Parallel._analyze_segment mt (Some w) (fst t)
                            (snd t) d env (Some TYPOS)
                            (Some UL1400_1_ISSUE_1))
                (target_windows w d fl)) as (rs & -> & Hnone).
    + intros [a b] Hin. unfold target_windows in Hin.
      apply in_map_iff in Hin. destruct Hin as (t & [= <- <-] & Ht).
      apply filter_In in Ht. destruct Ht as [Ht Hc]. apply leb_le in Hc.
      cbn [fst snd]. apply (Hall t Ht Hc).
    + rewrite Hnone, app_nil_r. reflexivity.
Qed.

(** C9, as the code has it.  The serial variant has no interpretation level
    and its threshold evaluator is the parallel variant's at [TYPOS], not at
    [STRICT].  On every input for which the serial variant returns regions,
    the parallel variant at [TYPOS] and the default standard version, with a
    pool of at least one process, returns the same regions. *)
Theorem serial_agrees_with_parallel_typos
  (current_waveform voltage_waveform : option wave)
  (env_conditions : option string) (start_time : option Qc)
  (min_window_duration : Qc) (num_cores : option Z) (cpu_count : Z)
  (regions : list region) :
  (1 <= pool_size num_cores cpu_count)%Z ->
  LetGo.find_time_regions_below_letgo current_waveform voltage_waveform
    env_conditions start_time min_window_duration = Ok regions ->
  (forall measurement_type segment_values,
     LetGo.is_below_letgo measurement_type segment_values env_conditions =
     Analyzer.is_below_letgo measurement_type segment_values env_conditions
       (Some TYPOS) (Some DEFAULT_STANDARD_VERSION)) /\
  Parallel.find_time_regions_below_letgo current_waveform voltage_waveform
    env_conditions start_time min_window_duration num_cores cpu_count
    (Some TYPOS) (Some DEFAULT_STANDARD_VERSION) = Ok regions.
Proof.
  intros Hn Hser. split; [intros; apply serial_evaluator_is_typos |].
  unfold DEFAULT_STANDARD_VERSION, LATEST_STANDARD_VERSION.
  unfold LetGo.find_time_regions_below_letgo in Hser.
  unfold Parallel.find_time_regions_below_letgo.
  fold (pool_size num_cores cpu_count).
  cbn [fold_left fst snd bind] in *.
  destruct current_waveform as [cw |]; cbn [bind] in *.
  - destruct (LetGo.pass "current" cw env_conditions start_time
                min_window_duration []) as [f1 | |] eqn:P1; cbn [bind] in Hser;
      try discriminate.
    destruct (serial_pass_ok _ _ _ _ _ _ _ _ Hn P1) as [-> ->]. cbn [bind].
    destruct voltage_waveform as [vw |]; [| exact Hser].
    destruct (LetGo.pass "voltage" vw env_conditions start_time
                min_window_duration []) as [f2 | |] eqn:P2; cbn [bind] in Hser;
      try discriminate.
    destruct (serial_pass_ok _ _ _ _ _ _ _ _ Hn P2) as [-> ->]. exact Hser.
  - destruct voltage_waveform as [vw |]; [| exact Hser].
    destruct (LetGo.pass "voltage" vw env_conditions start_time
                min_window_duration []) as [f2 | |] eqn:P2; cbn [bind] in Hser;
      try discriminate.
    destruct (serial_pass_ok _ _ _ _ _ _ _ _ Hn P2) as [-> ->]. exact Hser.
Qed.

Lemma serial_agrees_with_parallel_typos_witness :
  Parallel.find_time_regions_below_letgo (Some [(q 0, q 0); (q 3, q 0.02)])
    None None None (q 3) None 4 (Some TYPOS) (Some DEFAULT_STANDARD_VERSION)
  = Ok [].
Proof.
  apply (serial_agrees_with_parallel_typos
           (Some [(q 0, q 0); (q 3, q 0.02)]) None None None (q 3) None 4 []).
  - vm_compute. discriminate.
  - vm_compute. reflexivity.
Defined.

(** C9 as stated fails: on the current waveform 0 A at 0 s, 0.02 A at 3 s and
    a window of 3 s, the serial variant returns no region and the parallel
    variant at [STRICT] returns the region (0, 3). *)
Lemma serial_differs_from_parallel_strict :
  LetGo.find_time_regions_below_letgo (Some [(q 0, q 0); (q 3, q 0.02)]) None
    None None (q 3) = Ok [] /\
  Parallel.find_time_regions_below_letgo (Some [(q 0, q 0); (q 3, q 0.02)])
    None None None (q 3) None 4 (Some STRICT) (Some DEFAULT_STANDARD_VERSION)
  = Ok [(q 0, q 3)].
Proof. split; vm_compute; reflexivity. Qed.

(* ================================================================== *)
(** * The searches return or raise *)

Lemma bind_returns {A B : Type} (c : outcome A) (k : A -> outcome B) :
  c <> Diverge -> (forall a, k a <> Diverge) -> bind c k <> Diverge.
Proof.
  intros H K. destruct c; simpl; [apply K | discriminate | congruence].
Qed.

Lemma py_max_returns (xs : list Qc) : py_max xs <> Diverge.
Proof. unfold py_max. destruct (Num.list_max xs); discriminate. Qed.

Lemma py_min_returns (xs : list Qc) : py_min xs <> Diverge.
Proof. unfold py_min. destruct (Num.list_min xs); discriminate. Qed.

Lemma py_div_returns (a b : Qc) : py_div a b <> Diverge.
Proof. unfold py_div. destruct (b =? 0); discriminate. Qed.

Ltac returns :=
  repeat first
    [ discriminate
    | apply py_max_returns | apply py_min_returns | apply py_div_returns
    | apply bind_returns; [| intros ?]
    | match goal with
      | |- (if ?c then _ else _) <> Diverge => destruct c
      | |- match ?x with _ => _ end <> Diverge => destruct x
      end ].

Lemma is_current_below_letgo_returns (vs : option (list Qc))
  (i : option Interpretation) (sv : option StandardVersion) :
  Analyzer.is_current_below_letgo vs i sv <> Diverge.
Proof. unfold Analyzer.is_current_below_letgo. returns. Qed.

Lemma is_voltage_below_letgo_returns (vs : option (list Qc))
  (env : option string) (i : option Interpretation)
  (sv : option StandardVersion) :
  Analyzer.is_voltage_below_letgo vs env i sv <> Diverge.
Proof.
  unfold Analyzer.is_voltage_below_letgo.
  destruct vs as [vs |]; [| discriminate].
  destruct sv as [[] |]; [| discriminate].
  destruct i as [i |]; [| discriminate].
  destruct (Analyzer.bad_env env) eqn:B; [discriminate |].
  apply bad_env_valid in B. destruct B as [-> | ->]; returns.
Qed.

Lemma is_below_letgo_returns (mt : string) (vs : option (list Qc))
  (env : option string) (i : option Interpretation)
  (sv : option StandardVersion) :
  Analyzer.is_below_letgo mt vs env i sv <> Diverge.
Proof.
  unfold Analyzer.is_below_letgo.
  destruct (String.eqb mt "current");
    [apply is_current_below_letgo_returns |].
  destruct (String.eqb mt "voltage");
    [apply is_voltage_below_letgo_returns | discriminate].
Qed.

Lemma get_segment_start_returns (waveform : option wave) (s e d : Qc) :
  get_segment_from_waveform waveform s e d "start" <> Diverge.
Proof.
  destruct (get_segment_start_total waveform s e d) as (r & ->).
  discriminate.
Qed.

Lemma analyze_segment_returns (mt : string) (waveform : option wave)
  (s e d : Qc) (env : option string) (i : option Interpretation)
  (sv : option StandardVersion) :
  Parallel._analyze_segment mt waveform s e d env i sv <> Diverge.
Proof.
  unfold Parallel._analyze_segment.
  apply bind_returns; [apply get_segment_start_returns |].
  intros [seg |]; [| discriminate].
  apply bind_returns; [apply is_below_letgo_returns |]. intros b. returns.
Qed.

Lemma pool_starmap_returns {A B : Type} (f : A -> outcome B) (args : list A) :
  (forall a, f a <> Diverge) -> pool_starmap f args <> Diverge.
Proof.
  intros H. induction args as [| a rest IH]; [discriminate |].
  cbn [pool_starmap]. specialize (H a).
  destruct (f a), (pool_starmap f rest); congruence.
Qed.

(** The parallel search returns or raises. *)
Lemma parallel_search_returns (cw vw : option wave) (env : option string)
  (start_time : option Qc) (d : Qc) (num_cores : option Z) (cpu_count : Z)
  (i : option Interpretation) (sv : option StandardVersion) :
  Parallel.find_time_regions_below_letgo cw vw env start_time d num_cores
    cpu_count i sv <> Diverge.
Proof.
  assert (P : forall n mt w found,
            Parallel.pass n mt w env start_time d i sv found <> Diverge).
  { intros n mt w found. unfold Parallel.pass.
    apply bind_returns.
    - unfold floor_time. destruct start_time; returns.
    - intros fl. destruct (n <? 1)%Z; [discriminate |].
      match goal with
      | |- match ?c with _ => _ end <> _ =>
          assert (R : c <> Diverge)
            by (apply pool_starmap_returns; intros;
                apply analyze_segment_returns);
          destruct c; congruence
      end. }
  unfold Parallel.find_time_regions_below_letgo.
  cbn [fold_left fst snd]. apply bind_returns; [| discriminate].
  apply bind_returns.
  - apply bind_returns; [discriminate |]. intros found.
    destruct cw; [apply P | discriminate].
  - intros found. destruct vw; [apply P | discriminate].
Qed.

Lemma search_body_returns (mt : string) (w : wave) (env : option string)
  (d start : Qc) (s : LetGo.search) :
  LetGo.search_body mt w env d start s <> Diverge.
Proof.
  unfold LetGo.search_body.
  apply bind_returns; [apply get_segment_start_returns |].
  intros [seg |]; [| discriminate].
  apply bind_returns.
  { rewrite serial_evaluator_is_typos. apply is_below_letgo_returns. }
  intros b. apply bind_returns.
  - destruct (truthy b).
    + unfold LetGo.min_of_keys_and_max, expand_region. returns.
    + destruct (LetGo.working_region s); discriminate.
  - intros wf. destruct (Num.list_max _); discriminate.
Qed.

Lemma search_body_next (mt : string) (w : wave) (env : option string)
  (d start : Qc) (s s1 : LetGo.search) :
  LetGo.search_body mt w env d start s = Ok s1 ->
  LetGo.target_start_time s1 = None \/
  (In (LetGo.target_end_time s1) (keys w) /\
   LetGo.target_end_time s1 < LetGo.target_end_time s).
Proof.
  unfold LetGo.search_body.
  destruct (get_segment_from_waveform _ _ _ _ _) as [[seg |] | |];
    cbn [bind]; try discriminate.
  destruct (LetGo.is_below_letgo _ _ _) as [b | |]; cbn [bind];
    try discriminate.
  match goal with
  | |- bind ?c _ = _ -> _ => destruct c as [wf | |]; cbn [bind];
                             try discriminate
  end.
  destruct (Num.list_max _) as [e' |] eqn:Hmax; intros [= <-]; simpl;
    [right | left; reflexivity].
  apply list_max_greatest in Hmax. destruct Hmax as [Hin _].
  apply filter_In in Hin. destruct Hin as [Hin Hlt]. apply ltb_lt in Hlt.
  auto.
Qed.

(** Turns the serial search still needs: one for each sample time before
    the current end time, one for the current end time, and none once the
    start time is [None]. *)
Lemma search_loop_returns (mt : string) (w : wave) (env : option string)
  (d min_start : Qc) : forall n s,
  (match LetGo.target_start_time s with
   | Some _ =>
       S (List.length
            (filter (fun t => (t <? LetGo.target_end_time s)%Qc) (keys w)))
   | None => 0
   end < n)%nat ->
  LetGo.search_loop n mt w env d min_start s <> Diverge.
Proof.
  induction n as [| n IH]; intros s Hn; [lia |].
  cbn [LetGo.search_loop]. unfold LetGo.search_turn.
  destruct (LetGo.target_start_time s) as [ts |]; [| discriminate].
  destruct (min_start <=? ts); [| discriminate].
  destruct (LetGo.search_body mt w env d ts s) as [s1 | e |] eqn:Hb.
  - apply IH.
    destruct (search_body_next _ _ _ _ _ _ _ Hb) as [-> | [Hin Hlt]]; [lia |].
    destruct (LetGo.target_start_time s1); [| lia].
    assert (List.length
              (filter (fun t => (t <? LetGo.target_end_time s1)%Qc) (keys w))
            < List.length
                (filter (fun t => (t <? LetGo.target_end_time s)%Qc) (keys w)))%nat;
      [| lia].
    apply (filter_length_lt _ _ (keys w) (LetGo.target_end_time s1)); auto.
    + intros x Hx. apply ltb_lt in Hx. apply ltb_lt.
      apply Qclt_trans with (LetGo.target_end_time s1); auto.
    + apply ltb_lt. exact Hlt.
    + apply ltb_ge. apply Qcle_refl.
  - discriminate.
  - destruct (search_body_returns mt w env d ts s Hb).
Qed.

(** The serial search returns or raises: the turns its model allows are
    enough. *)
Lemma serial_search_returns (cw vw : option wave) (env : option string)
  (start_time : option Qc) (d : Qc) :
  LetGo.find_time_regions_below_letgo cw vw env start_time d <> Diverge.
Proof.
  assert (P : forall mt w found,
            LetGo.pass mt w env start_time d found <> Diverge).
  { intros mt w found. unfold LetGo.pass.
    apply bind_returns.
    { unfold floor_time. destruct start_time; returns. }
    intros fl. unfold py_max.
    destruct (Num.list_max (keys w)) as [hi |] eqn:Hhi; [| discriminate].
    cbn [bind]. apply bind_returns.
    - apply search_loop_returns.
      cbn [LetGo.target_start_time LetGo.target_end_time].
      apply list_max_greatest in Hhi. destruct Hhi as [Hin _].
      assert (List.length (filter (fun t => (t <? hi)%Qc) (keys w)) <
              List.length (filter (fun _ => true) (keys w)))%nat.
      { apply (filter_length_lt _ _ (keys w) hi); auto.
        apply ltb_ge. apply Qcle_refl. }
      pose proof (filter_length_le (fun _ : Qc => true) (keys w)).
      unfold keys in *. rewrite length_map in *. lia.
    - intros s. destruct (LetGo.working_region s); discriminate. }
  unfold LetGo.find_time_regions_below_letgo.
  cbn [fold_left fst snd]. apply bind_returns; [| discriminate].
  apply bind_returns.
  - apply bind_returns; [discriminate |]. intros found.
    destruct cw; [apply P | discriminate].
  - intros found. destruct vw; [apply P | discriminate].
Qed.

(* ================================================================== *)
(** * Merging regions *)

Lemma region_eqb_refl (r : region) : region_eqb r r = true.
Proof. apply region_eqb_eq. reflexivity. Qed.

Lemma list_remove_In (x y : region) (l : list region) :
  In y (list_remove x l) -> In y l.
Proof.
  induction l as [| z l IH]; simpl; [auto |].
  destruct (region_eqb z x); simpl; tauto.
Qed.

Lemma list_remove_perm (x : region) (l : list region) :
  In x l -> Permutation l (x :: list_remove x l).
Proof.
  induction l as [| z l IH]; simpl; [intros [] |].
  destruct (region_eqb z x) eqn:E.
  - apply region_eqb_eq in E. subst z. reflexivity.
  - intros [-> | H]; [rewrite region_eqb_refl in E; discriminate |].
    rewrite perm_swap. apply perm_skip. apply IH, H.
Qed.

(** The elements [merge_regions] removes are in the list: [list.remove]
    does not raise. *)
Lemma remove_pair_present (r1 r2 : region) (l : list region) :
  In (r1, r2) (combinations2 l) -> In r1 l /\ In r2 (list_remove r1 l).
Proof.
  induction l as [| x l IH]; simpl; [intros [] |].
  intros H. apply in_app_or in H. destruct H as [H | H].
  - apply in_map_iff in H. destruct H as (y & [= <- <-] & Hy).
    rewrite region_eqb_refl. auto.
  - destruct (IH H) as [H1 H2]. split; [auto |].
    destruct (region_eqb x r1); [| right; exact H2].
    apply (list_remove_In r1). exact H2.
Qed.

Lemma first_union_Some (pairs : list (region * region)) (r1 r2 u : region) :
  first_union pairs = Some (r1, r2, u) ->
  In (r1, r2) pairs /\ unionize_regions r1 r2 = Some u.
Proof.
  induction pairs as [| [a b] rest IH]; simpl; [discriminate |].
  destruct (unionize_regions a b) eqn:E.
  - intros [= <- <- <-]. auto.
  - intros H. destruct (IH H). auto.
Qed.

Lemma first_union_None (pairs : list (region * region)) :
  first_union pairs = None ->
  forall a b, In (a, b) pairs -> separated a b.
Proof.
  induction pairs as [| [a b] rest IH]; simpl; [intros _ ? ? [] |].
  destruct (unionize_regions a b) eqn:E; [discriminate |].
  intros H x y [[= <- <-] | Hin]; [apply unionize_None; exact E | auto].
Qed.

Lemma first_union_separated (pairs : list (region * region)) :
  (forall a b, In (a, b) pairs -> separated a b) -> first_union pairs = None.
Proof.
  induction pairs as [| [a b] rest IH]; simpl; [reflexivity |].
  intros H. assert (E : unionize_regions a b = None)
    by (apply unionize_None; apply H; left; reflexivity).
  rewrite E. apply IH. intros x y Hin. apply H. right. exact Hin.
Qed.

Lemma combinations2_pairs (P : region -> region -> Prop) (l : list region) :
  (forall a b, In (a, b) (combinations2 l) -> P a b) <-> ForallOrdPairs P l.
Proof.
  induction l as [| x l IH]; simpl.
  - split; [constructor | intros _ ? ? []].
  - split.
    + intros H. constructor.
      * apply Forall_forall. intros y Hy. apply H.
        apply in_or_app. left. apply in_map. exact Hy.
      * apply IH. intros a b Hab. apply H. apply in_or_app. right. exact Hab.
    + intros H a b Hab. inversion H as [| ? ? Hx Hl]; subst.
      apply in_app_or in Hab. destruct Hab as [Hab | Hab].
      * apply in_map_iff in Hab. destruct Hab as (y & [= <- <-] & Hy).
        rewrite Forall_forall in Hx. auto.
      * apply IH; assumption.
Qed.

(** The loop of [merge_regions] exits on a list exactly when its regions are
    pairwise separated. *)
Lemma merge_step_None (l : list region) :
  merge_step l = None <-> pairwise_separated l.
Proof.
  unfold merge_step, pairwise_separated. split.
  - intros H. apply combinations2_pairs. apply first_union_None.
    destruct (first_union (combinations2 l)) as [[[? ?] ?] |];
      [discriminate | reflexivity].
  - intros H. rewrite first_union_separated; [reflexivity |].
    apply combinations2_pairs. exact H.
Qed.

(** A turn of the loop replaces two regions that are not separated by their
    union. *)
Lemma merge_step_Some (l l' : list region) :
  merge_step l = Some l' ->
  exists r1 r2 rest,
    Permutation l (r1 :: r2 :: rest) /\ ~ separated r1 r2 /\
    l' = rest ++ [(Num.min2 (fst r1) (fst r2), Num.max2 (snd r1) (snd r2))].
Proof.
  unfold merge_step.
  destruct (first_union (combinations2 l)) as [[[r1 r2] u] |] eqn:E;
    [| discriminate].
  intros [= <-]. apply first_union_Some in E. destruct E as [Hin Hu].
  destruct (remove_pair_present r1 r2 l Hin) as [H1 H2].
  exists r1, r2, (list_remove r2 (list_remove r1 l)).
  assert (NS : ~ separated r1 r2).
  { intros S. apply unionize_None in S. congruence. }
  split; [| split; [exact NS |]].
  - rewrite (list_remove_perm r1 l H1) at 1. apply perm_skip.
    apply list_remove_perm, H2.
  - rewrite (unionize_Some r1 r2 NS) in Hu. injection Hu as <-. reflexivity.
Qed.

Lemma covers_perm (l l' : list region) :
  Permutation l l' -> same_union l l'.
Proof.
  intros P x. unfold covers.
  split; intros (r & Hin & Hx); exists r; split; auto.
  - apply (Permutation_in _ P), Hin.
  - apply (Permutation_in _ (Permutation_sym P)), Hin.
Qed.

Lemma covers_cons (r : region) (l : list region) (x : Qc) :
  covers (r :: l) x <-> (fst r <= x /\ x <= snd r) \/ covers l x.
Proof.
  unfold covers. split.
  - intros (r' & [<- | Hin] & Hx); [left; exact Hx | right; eauto].
  - intros [Hx | (r' & Hin & Hx)]; [exists r | exists r']; simpl; auto.
Qed.

(** The union of two regions that are not separated holds the points of
    the two, and no other. *)
Lemma union_points (r1 r2 : region) (x : Qc) :
  ~ separated r1 r2 ->
  (Num.min2 (fst r1) (fst r2) <= x /\ x <= Num.max2 (snd r1) (snd r2)) <->
  (fst r1 <= x /\ x <= snd r1) \/ (fst r2 <= x /\ x <= snd r2).
Proof.
  unfold separated. intros NS.
  assert (N1 : fst r2 <= snd r1) by (apply Qcnot_lt_le; tauto).
  assert (N2 : fst r1 <= snd r2) by (apply Qcnot_lt_le; tauto).
  destruct (min2_cases (fst r1) (fst r2)) as [[L1 ->] | [L1 ->]],
           (max2_cases (snd r1) (snd r2)) as [[L2 ->] | [L2 ->]].
  all: split;
    [ intros [A B];
      destruct (Qclt_le_dec x (fst r1)) as [C | C];
      destruct (Qclt_le_dec (snd r1) x) as [D | D];
      first [ left; split; assumption
            | right; split; revert A B C D L1 L2 N1 N2; qc_arith ]
    | intros [[A B] | [A B]]; split; revert A B L1 L2 N1 N2; qc_arith ].
Qed.

Lemma union_well_formed (r1 r2 : region) :
  well_formed r1 ->
  well_formed (Num.min2 (fst r1) (fst r2), Num.max2 (snd r1) (snd r2)).
Proof.
  unfold well_formed. simpl. intros W.
  destruct (min2_cases (fst r1) (fst r2)) as [[L1 ->] | [L1 ->]],
           (max2_cases (snd r1) (snd r2)) as [[L2 ->] | [L2 ->]];
    revert W L1 L2; qc_arith.
Qed.

Lemma merge_step_keeps (l l' : list region) :
  merge_step l = Some l' ->
  S (List.length l') = List.length l /\
  same_union l' l /\
  (Forall well_formed l -> Forall well_formed l').
Proof.
  intros H. apply merge_step_Some in H.
  destruct H as (r1 & r2 & rest & P & NS & ->).
  split; [| split].
  - rewrite (Permutation_length P), length_app. simpl. lia.
  - intros x. rewrite (covers_perm _ _ P x).
    rewrite (covers_perm _ _ (Permutation_sym (Permutation_cons_append rest _)) x).
    rewrite !covers_cons. cbn [fst snd].
    rewrite (union_points r1 r2 x NS). tauto.
  - intros W. apply (Permutation_Forall P) in W.
    inversion W as [| ? ? W1 W']; subst. inversion W' as [| ? ? W2 W'']; subst.
    apply Forall_app. split; [exact W'' |].
    constructor; [| constructor]. apply union_well_formed. exact W1.
Qed.

Lemma merge_loop_keeps : forall n l,
  (List.length (merge_loop n l) <= List.length l)%nat /\
  same_union (merge_loop n l) l /\
  (Forall well_formed l -> Forall well_formed (merge_loop n l)) /\
  ((List.length l <= n)%nat -> pairwise_separated (merge_loop n l)).
Proof.
  induction n as [| n IH]; intros l; cbn [merge_loop].
  - repeat split; auto; try tauto.
    intros H. destruct l; [constructor | simpl in H; lia].
  - destruct (merge_step l) as [l' |] eqn:E.
    + destruct (merge_step_keeps l l' E) as (Hlen & Hun & Hwf).
      destruct (IH l') as (Hlen' & Hun' & Hwf' & Hsep').
      repeat split.
      * lia.
      * intros C. apply Hun, Hun', C.
      * intros C. apply Hun', Hun, C.
      * auto.
      * intros Hn. apply Hsep'. lia.
    + repeat split; auto; try tauto. intros _. apply merge_step_None, E.
Qed.

(** The loop of [merge_regions] has exited when its turns are used up. *)
Lemma merge_regions_stable (l : list region) :
  merge_step (merge_regions l) = None.
Proof.
  apply merge_step_None. apply merge_loop_keeps. unfold merge_regions. lia.
Qed.

Lemma merge_loop_separated (n : nat) (l : list region) :
  pairwise_separated l -> merge_loop n l = l.
Proof.
  intros H. apply merge_step_None in H.
  destruct n; cbn [merge_loop]; [| rewrite H]; reflexivity.
Qed.

Lemma separated_or_eq (l : list region) (a b : region) :
  pairwise_separated l -> In a l -> In b l ->
  a = b \/ separated a b.
Proof.
  intros H Ha Hb.
  destruct (ForallOrdPairs_In H a b Ha Hb) as [E | [S | S]]; auto.
  right. unfold separated in *. tauto.
Qed.

Lemma separated_irrefl (r : region) : well_formed r -> ~ separated r r.
Proof.
  unfold well_formed, separated. intros W [S | S];
    exact (Qclt_not_le _ _ S W).
Qed.

Lemma separated_NoDup (l : list region) :
  Forall well_formed l -> pairwise_separated l -> NoDup l.
Proof.
  intros W H. induction H as [| x l Hx Hl IH]; [constructor |].
  inversion W as [| ? ? Wx Wl]; subst. constructor; [| auto].
  intros Hin. rewrite Forall_forall in Hx.
  exact (separated_irrefl x Wx (Hx x Hin)).
Qed.

(** An interval covered by pairwise separated regions lies in one of them:
    between the end of the region that holds its start and the next region
    there would be a point that no region holds. *)
Lemma covered_interval_inside (l : list region) (a b : Qc) :
  pairwise_separated l -> a <= b ->
  (forall x, a <= x -> x <= b -> covers l x) ->
  exists r, In r l /\ fst r <= a /\ b <= snd r.
Proof.
  intros Sep Hab Hcov.
  destruct (Hcov a (Qcle_refl a) Hab) as (r1 & Hin1 & Ha1 & Hb1).
  destruct (Qclt_le_dec (snd r1) b) as [Lt | Le]; [| exists r1; auto].
  exfalso.
  set (starts :=
         map fst (filter (fun r => (snd r1 <? fst r) && (fst r <=? b)) l)).
  destruct (list_min_nonempty (b :: starts)) as [m Hm]; [discriminate |].
  apply list_min_least in Hm. destruct Hm as [Hmin Hleast].
  assert (Hm : snd r1 < m /\ m <= b).
  { destruct Hmin as [<- | Hin]; [split; [exact Lt | apply Qcle_refl] |].
    unfold starts in Hin. apply in_map_iff in Hin.
    destruct Hin as (r & <- & Hr). apply filter_In in Hr.
    destruct Hr as [_ Hr]. apply andb_true_iff in Hr. destruct Hr.
    qc_hyps. auto. }
  destruct Hm as [Hm1 Hm2].
  set (mid := (snd r1 + m) * q (1 # 2)).
  assert (Hmid : snd r1 < mid /\ mid < m).
  { unfold mid. split; revert Hm1; qc_arith. }
  destruct Hmid as [Hmid1 Hmid2].
  destruct (Hcov mid) as (r2 & Hin2 & Ha2 & Hb2).
  { revert Hb1 Hmid1. qc_arith. }
  { revert Hmid2 Hm2. qc_arith. }
  destruct (separated_or_eq l r1 r2 Sep Hin1 Hin2) as [<- | [S | S]].
  - exact (Qclt_not_le _ _ Hmid1 Hb2).
  - assert (Hs : In (fst r2) (b :: starts)).
    { right. unfold starts. apply in_map. apply filter_In.
      split; [exact Hin2 |]. apply andb_true_iff. split.
      - apply ltb_lt. exact S.
      - apply leb_le. revert Ha2 Hmid2 Hm2. qc_arith. }
    apply Hleast in Hs. revert Hs Ha2 Hmid2. qc_arith.
  - revert S Hb2 Ha1 Hb1 Hmid1. qc_arith.
Qed.

Lemma region_covered (l : list region) (r : region) (x : Qc) :
  In r l -> fst r <= x -> x <= snd r -> covers l x.
Proof. intros. exists r. auto. Qed.

(** Two lists of pairwise separated regions with the same union have the
    same regions. *)
Lemma separated_same_regions (l1 l2 : list region) :
  Forall well_formed l1 -> Forall well_formed l2 ->
  pairwise_separated l1 -> pairwise_separated l2 ->
  same_union l1 l2 ->
  forall r, In r l1 -> In r l2.
Proof.
  intros W1 W2 S1 S2 U r Hr.
  assert (Wr : well_formed r) by (rewrite Forall_forall in W1; auto).
  destruct (covered_interval_inside l2 (fst r) (snd r) S2 Wr)
    as (r' & Hr' & A' & B').
  { intros x Hx1 Hx2. apply U. exact (region_covered l1 r x Hr Hx1 Hx2). }
  assert (Wr' : well_formed r') by (rewrite Forall_forall in W2; auto).
  destruct (covered_interval_inside l1 (fst r') (snd r') S1 Wr')
    as (r'' & Hr'' & A'' & B'').
  { intros x Hx1 Hx2. apply U. exact (region_covered l2 r' x Hr' Hx1 Hx2). }
  destruct (separated_or_eq l1 r r'' S1 Hr Hr'') as [<- | [S | S]].
  - assert (E : r' = r); [| rewrite <- E; exact Hr'].
    destruct r as [a b], r' as [a' b']. simpl in *.
    f_equal; apply Qcle_antisym; assumption.
  - exfalso. unfold well_formed in *.
    revert S Wr Wr' A' B' A'' B''. qc_arith.
  - exfalso. unfold well_formed in *.
    revert S Wr Wr' A' B' A'' B''. qc_arith.
Qed.

Lemma separated_unique (l1 l2 : list region) :
  Forall well_formed l1 -> Forall well_formed l2 ->
  pairwise_separated l1 -> pairwise_separated l2 ->
  same_union l1 l2 -> Permutation l1 l2.
Proof.
  intros W1 W2 S1 S2 U.
  apply NoDup_Permutation; auto using separated_NoDup.
  intros r. split; apply separated_same_regions; auto.
  intros x. symmetry. apply U.
Qed.

Lemma same_union_trans (l1 l2 l3 : list region) :
  same_union l1 l2 -> same_union l2 l3 -> same_union l1 l3.
Proof. intros A B x. rewrite (A x). apply B. Qed.

Lemma same_union_sym (l1 l2 : list region) :
  same_union l1 l2 -> same_union l2 l1.
Proof. intros A x. symmetry. apply A. Qed.

(** C5.  For a list [R] of regions with [start <= end], [merge_regions R] is
    a list of pairwise separated regions (no two overlap or touch) with the
    union of [R]; every list of pairwise separated regions with that union
    has exactly these regions, and no list of regions with that union is
    shorter.  So merging is idempotent, and merging a permutation of [R]
    gives the same regions. *)
Theorem merge_regions_minimal_partition (R : list region) :
  Forall well_formed R ->
  Forall well_formed (merge_regions R) /\
  pairwise_separated (merge_regions R) /\
  same_union (merge_regions R) R /\
  (forall L, Forall well_formed L -> pairwise_separated L ->
     same_union L R -> Permutation L (merge_regions R)) /\
  (forall L, Forall well_formed L -> same_union L R ->
     (List.length (merge_regions R) <= List.length L)%nat) /\
  merge_regions (merge_regions R) = merge_regions R /\
  (forall R', Permutation R R' ->
     Permutation (merge_regions R) (merge_regions R')).
Proof.
  intros W. unfold merge_regions.
  destruct (merge_loop_keeps (List.length R) R) as (Hlen & Hun & Hwf & Hsep).
  specialize (Hwf W). specialize (Hsep (Nat.le_refl _)).
  assert (Uniq : forall L, Forall well_formed L -> pairwise_separated L ->
            same_union L R -> Permutation L (merge_loop (List.length R) R)).
  { intros L WL SL UL. apply separated_unique; auto.
    apply (same_union_trans _ R); [exact UL | apply same_union_sym, Hun]. }
  repeat split; auto.
  - apply Hun.
  - apply Hun.
  - intros L WL UL.
    destruct (merge_loop_keeps (List.length L) L) as (Ll & Lu & Lw & Ls).
    rewrite <- (Permutation_length
                  (Uniq _ (Lw WL) (Ls (Nat.le_refl _))
                     (same_union_trans _ _ _ Lu UL))).
    exact Ll.
  - apply merge_loop_separated. exact Hsep.
  - intros R' P. apply Permutation_sym.
    destruct (merge_loop_keeps (List.length R') R') as (_ & Lu & Lw & Ls).
    apply Uniq.
    + apply Lw. apply (Permutation_Forall P). exact W.
    + apply Ls. lia.
    + apply (same_union_trans _ R'); [exact Lu |].
      apply covers_perm, Permutation_sym, P.
Qed.

Lemma merge_regions_minimal_partition_witness :
  merge_regions (merge_regions [(q 0, q 5); (q 7, q 8); (q 5, q 10)]) =
  merge_regions [(q 0, q 5); (q 7, q 8); (q 5, q 10)] /\
  Permutation (merge_regions [(q 0, q 5); (q 7, q 8); (q 5, q 10)])
    (merge_regions [(q 5, q 10); (q 0, q 5); (q 7, q 8)]).
Proof.
  destruct (merge_regions_minimal_partition
              [(q 0, q 5); (q 7, q 8); (q 5, q 10)])
    as (_ & _ & _ & _ & _ & Hidem & Hperm).
  - repeat constructor; apply leb_le; vm_compute; reflexivity.
  - split; [exact Hidem |]. apply Hperm.
    apply Permutation_sym, (Permutation_cons_append [_; _]).
Defined.

(* ================================================================== *)
(** * More on the threshold evaluator *)



Ltac never_none :=
  repeat first
    [ discriminate
    | match goal with
      | |- bind ?c _ <> Ok None => destruct c; cbn [bind]
      | |- (if ?c then _ else _) <> Ok None => destruct c
      | |- match ?x with _ => _ end <> Ok None => destruct x
      end ].

Lemma is_current_never_none (vs : list Qc) (i : option Interpretation)
  (sv : option StandardVersion) :
  Analyzer.is_current_below_letgo (Some vs) i sv <> Ok None.
Proof. unfold Analyzer.is_current_below_letgo. never_none. Qed.

Lemma is_voltage_never_none (vs : list Qc) (env : option string)
  (i : option Interpretation) (sv : option StandardVersion) :
  Analyzer.is_voltage_below_letgo (Some vs) env i sv <> Ok None.
Proof.
  unfold Analyzer.is_voltage_below_letgo.
  destruct sv as [[] |]; [| discriminate].
  destruct i as [i |]; [| discriminate].
  destruct (Analyzer.bad_env env) eqn:B; [discriminate |].
  apply bad_env_valid in B. destruct B as [-> | ->]; never_none.
Qed.

(** X2.  [is_below_letgo] answers [None] exactly when the values are absent
    and the measurement type is current or voltage: present values always
    get a verdict or an exception, and another measurement type always
    raises. *)
Theorem is_below_letgo_none_iff (measurement_type : string)
  (segment_values : option (list Qc)) (env_conditions : option string)
  (interpretation : option Interpretation)
  (standard_version : option StandardVersion) :
  Analyzer.is_below_letgo measurement_type segment_values env_conditions
    interpretation standard_version = Ok None <->
  segment_values = None /\
  (measurement_type = "current"%string \/ measurement_type = "voltage"%string).
Proof.
  unfold Analyzer.is_below_letgo.
  destruct (String.eqb measurement_type "current") eqn:Ec.
  - apply String.eqb_eq in Ec. subst. split.
    + intros H. destruct segment_values as [vs |]; [| auto].
      destruct (is_current_never_none vs _ _ H).
    + intros [-> _]. reflexivity.
  - destruct (String.eqb measurement_type "voltage") eqn:Ev.
    + apply String.eqb_eq in Ev. subst. split.
      * intros H. destruct segment_values as [vs |]; [| auto].
        destruct (is_voltage_never_none vs _ _ _ H).
      * intros [-> _]. reflexivity.
    + apply String.eqb_neq in Ec, Ev. split; [discriminate |].
      intros [_ [E | E]]; contradiction.
Qed.

Ltac only_value_error :=
  repeat first
    [ left; eexists; reflexivity
    | right; eexists; reflexivity
    | match goal with
      | |- context [py_div ?a ?b] =>
          unfold py_div;
          let E := fresh "E" in destruct (b =? 0) eqn:E
      | |- context [py_max ?x] =>
          unfold py_max;
          let E := fresh "E" in destruct (Num.list_max x) eqn:E
      | |- context [bind (Ok _) _] => cbn [bind fst snd]
      | |- context [bind (Raise _) _] => cbn [bind]
      | |- context [if ?c then _ else _] => destruct c
      | |- context [match ?x with STRICT => _ | _ => _ end] => destruct x
      end ].

(** Once [max] has passed, the list is not empty and its length is not 0. *)
Lemma max_then_len (vs : list Qc) (m : Qc) :
  Num.list_max vs = Some m -> (Num.len vs =? 0) = false.
Proof.
  intros H. apply len_nonzero. intros ->. discriminate.
Qed.

(** X3.  The evaluators return a verdict or raise [ValueError], nothing
    else: the division by the length is never a division by zero (an empty
    list has already made [max] raise), and the limit is always bound.  On an
    empty list with a supported configuration the exception is the
    [ValueError] of [max]. *)
Theorem is_below_letgo_value_error_only (measurement_type : string)
  (segment_values : option (list Qc)) (env_conditions : option string)
  (interpretation : option Interpretation)
  (standard_version : option StandardVersion) :
  let r := Analyzer.is_below_letgo measurement_type segment_values
             env_conditions interpretation standard_version in
  ((exists o, r = Ok o) \/ (exists why, r = Raise (ValueError why))) /\
  (segment_values = Some [] ->
   (exists i, interpretation = Some i) ->
   standard_version = Some UL1400_1_ISSUE_1 ->
   measurement_type = "current"%string \/
   (measurement_type = "voltage"%string /\ valid_env env_conditions) ->
   r = Raise (ValueError EmptySequence)).
Proof.
  cbv zeta. split.
  - unfold Analyzer.is_below_letgo.
    destruct (String.eqb measurement_type "current").
    + unfold Analyzer.is_current_below_letgo.
      destruct segment_values as [vs |]; [| left; eexists; reflexivity].
      destruct standard_version as [[] |]; [| right; eexists; reflexivity].
      destruct interpretation as [i |]; [| right; eexists; reflexivity].
      destruct (Num.list_max vs) as [m |] eqn:Hm.
      2: { replace (py_max vs) with (@Raise Qc (ValueError EmptySequence))
             by (unfold py_max; rewrite Hm; reflexivity).
           right; eexists; reflexivity. }
      replace (py_max vs) with (Ok m)
        by (unfold py_max; rewrite Hm; reflexivity).
      cbn [bind]. unfold py_div. rewrite (max_then_len vs m Hm). cbn [bind].
      only_value_error.
    + destruct (String.eqb measurement_type "voltage");
        [| right; eexists; reflexivity].
      unfold Analyzer.is_voltage_below_letgo.
      destruct segment_values as [vs |]; [| left; eexists; reflexivity].
      destruct standard_version as [[] |]; [| right; eexists; reflexivity].
      destruct interpretation as [i |]; [| right; eexists; reflexivity].
      destruct (Analyzer.bad_env env_conditions) eqn:B;
        [right; eexists; reflexivity |].
      apply bad_env_valid in B.
      destruct (Num.list_max vs) as [m |] eqn:Hm.
      2: { replace (py_max vs) with (@Raise Qc (ValueError EmptySequence))
             by (unfold py_max; rewrite Hm; reflexivity).
           right; eexists; reflexivity. }
      replace (py_max vs) with (Ok m)
        by (unfold py_max; rewrite Hm; reflexivity).
      cbn [bind]. unfold py_div. rewrite (max_then_len vs m Hm). cbn [bind].
      destruct B as [-> | ->]; only_value_error.
  - intros -> [i ->] -> [-> | [-> V]]; [reflexivity |].
    apply bad_env_valid in V.
    unfold Analyzer.is_below_letgo, Analyzer.is_voltage_below_letgo.
    cbn [String.eqb Ascii.eqb Bool.eqb]. rewrite V. reflexivity.
Qed.

Lemma is_below_letgo_value_error_only_witness :
  Analyzer.is_below_letgo "current" (Some []) None (Some STRICT)
    (Some UL1400_1_ISSUE_1) = Raise (ValueError EmptySequence).
Proof.
  apply (is_below_letgo_value_error_only "current" (Some []) None
           (Some STRICT) (Some UL1400_1_ISSUE_1)).
  - reflexivity.
  - exists STRICT. reflexivity.
  - reflexivity.
  - left. reflexivity.
Defined.

Lemma le_limit_mono (p p' : Qc) (l : limit) :
  p <= p' -> le_limit p' l = true -> le_limit p l = true.
Proof.
  intros H. rewrite !le_limit_real. apply Qcle_Rle in H. Lra.lra.
Qed.

Lemma abs_ge (x : Qc) : x <= Num.abs x.
Proof.
  destruct (abs_cases x) as [[N ->] | [N ->]];
    [revert N; qc_arith | apply Qcle_refl].
Qed.

(** The greatest magnitude is at least the greatest value. *)
Lemma greatest_abs_ge (vs : list Qc) (m m' : Qc) :
  is_greatest vs m -> is_greatest (map Num.abs vs) m' -> m <= m'.
Proof.
  intros [Hin _] [_ Hge].
  apply Qcle_trans with (Num.abs m); [apply abs_ge |].
  apply Hge. apply in_map. exact Hin.
Qed.

Lemma current_present (vs : list Qc) (i : Interpretation) (o : option bool) :
  Analyzer.is_current_below_letgo (Some vs) (Some i) (Some UL1400_1_ISSUE_1)
    = Ok o -> vs <> [].
Proof. intros H ->. destruct i; discriminate. Qed.

Lemma voltage_present (vs : list Qc) (env : option string)
  (i : Interpretation) (o : option bool) :
  Analyzer.is_voltage_below_letgo (Some vs) env (Some i)
    (Some UL1400_1_ISSUE_1) = Ok o ->
  vs <> [] /\ exists e, env = Some e /\ (e = "wet" \/ e = "dry")%string.
Proof.
  intros H. unfold Analyzer.is_voltage_below_letgo in H.
  destruct (Analyzer.bad_env env) eqn:B; [discriminate |].
  apply bad_env_valid in B. split.
  - intros ->. destruct i; discriminate.
  - destruct B as [-> | ->]; eauto.
Qed.

(** X4.  The typo correction only lowers the current limit: whenever the
    current evaluator answers [True] under [TYPOS], it answers [True] under
    [STRICT] for the same values. *)
Theorem typos_below_implies_strict_below (vs : list Qc) :
  Analyzer.is_current_below_letgo (Some vs) (Some TYPOS)
    (Some UL1400_1_ISSUE_1) = Ok (Some true) ->
  Analyzer.is_current_below_letgo (Some vs) (Some STRICT)
    (Some UL1400_1_ISSUE_1) = Ok (Some true).
Proof.
  intros H. assert (NE := current_present _ _ _ H).
  destruct (readings_greatest TYPOS vs NE) as [pk G].
  rewrite (current_unfold vs TYPOS pk NE G) in H.
  rewrite (current_unfold vs STRICT pk NE G).
  cbv zeta in *. cbn [mean_reading Analyzer.strict_level] in *.
  destruct (_ <? 0); [discriminate |].
  destruct (_ <=? q 4.21); [exact H |].
  destruct (_ <=? q 30); [| discriminate].
  injection H as H. do 2 f_equal. cbn [le_limit] in *.
  apply leb_le. apply leb_le in H. revert H. qc_arith.
Qed.

Lemma typos_below_implies_strict_below_witness :
  Analyzer.is_current_below_letgo (Some [q 0.01]) (Some STRICT)
    (Some UL1400_1_ISSUE_1) = Ok (Some true).
Proof.
  apply (typos_below_implies_strict_below [q 0.01]).
  vm_compute. reflexivity.
Defined.

(** X5.  Reading magnitudes never turns a refusal into an acceptance: when
    the evaluator returns a verdict under [TYPOS], it returns a verdict under
    [REASONABLE] for the same values, and that verdict is [True] only if the
    one under [TYPOS] is. *)
Theorem reasonable_below_implies_typos_below (measurement_type : string)
  (vs : list Qc) (env : option string) (b : bool) :
  Analyzer.is_below_letgo measurement_type (Some vs) env (Some TYPOS)
    (Some UL1400_1_ISSUE_1) = Ok (Some b) ->
  exists b' : bool,
    Analyzer.is_below_letgo measurement_type (Some vs) env (Some REASONABLE)
      (Some UL1400_1_ISSUE_1) = Ok (Some b') /\
    (b' = true -> b = true).
Proof.
  unfold Analyzer.is_below_letgo.
  destruct (String.eqb measurement_type "current").
  - intros H. assert (NE := current_present _ _ _ H).
    destruct (readings_greatest TYPOS vs NE) as [pk G].
    destruct (readings_greatest REASONABLE vs NE) as [pk' G'].
    assert (P : pk * q 1000 <= pk' * q 1000).
    { assert (pk <= pk') by (apply (greatest_abs_ge vs); assumption).
      revert H0. qc_arith. }
    rewrite (current_unfold vs TYPOS pk NE G) in H.
    rewrite (current_unfold vs REASONABLE pk' NE G').
    cbv zeta in *.
    cbn [mean_reading Analyzer.strict_level] in *.
    destruct (average vs * q 1000 <? 0) eqn:N; [discriminate |].
    apply ltb_ge in N.
    assert (E : Num.abs (average vs) * q 1000 = average vs * q 1000).
    { destruct (abs_cases (average vs)) as [[C ->] | [C ->]];
        [exfalso; revert N C; qc_arith | reflexivity]. }
    rewrite E. apply ltb_ge in N. rewrite N.
    destruct (_ <=? q 4.21).
    + injection H as <-. eexists. split; [reflexivity |].
      intros Hb. exact (le_limit_mono _ _ FiveSqrt2 P Hb).
    + destruct (_ <=? q 30); [| discriminate].
      injection H as <-. eexists. split; [reflexivity |].
      intros Hb. exact (le_limit_mono _ _ (Lim _) P Hb).
  - destruct (String.eqb measurement_type "voltage"); [| discriminate].
    intros H. destruct (voltage_present _ _ _ _ H) as (NE & e & -> & V).
    destruct (readings_greatest TYPOS vs NE) as [pk G].
    destruct (readings_greatest REASONABLE vs NE) as [pk' G'].
    assert (P : pk <= pk') by (apply (greatest_abs_ge vs); assumption).
    rewrite (voltage_unfold vs e TYPOS pk NE V G) in H.
    rewrite (voltage_unfold vs e REASONABLE pk' NE V G').
    cbv zeta in *.
    cbn [mean_reading Analyzer.strict_level] in *.
    destruct (average vs <? 0) eqn:N; [discriminate |].
    apply ltb_ge in N.
    assert (E : Num.abs (average vs) = average vs).
    { destruct (abs_cases (average vs)) as [[C ->] | [C ->]];
        [exfalso; exact (Qclt_not_le _ _ C N) | reflexivity]. }
    rewrite E. apply ltb_ge in N. rewrite N.
    assert (M : forall l, (pk' <=? l) = true -> (pk <=? l) = true).
    { intros l Hl. apply leb_le. apply leb_le in Hl.
      apply Qcle_trans with pk'; assumption. }
    destruct (String.eqb e "wet").
    + destruct (_ <=? q 10.4);
        [injection H as <-; eexists; split; [reflexivity | apply M] |].
      destruct (_ <=? q 30); [| discriminate].
      injection H as <-. eexists. split; [reflexivity | apply M].
    + destruct (_ <=? q 20.9);
        [injection H as <-; eexists; split; [reflexivity | apply M] |].
      destruct (_ <=? q 60); [| discriminate].
      injection H as <-. eexists. split; [reflexivity | apply M].
Qed.

Lemma reasonable_below_implies_typos_below_witness :
  exists b' : bool,
    Analyzer.is_below_letgo "current"
      (Some [q (-0.008); q 0.003; q 0.003; q 0.003]) None
      (Some REASONABLE) (Some UL1400_1_ISSUE_1) = Ok (Some b') /\
    (b' = true -> true = true).
Proof.
  apply (reasonable_below_implies_typos_below "current"
           [q (-0.008); q 0.003; q 0.003; q 0.003] None true).
  vm_compute. reflexivity.
Defined.

(** X6.  Levels that do not differ: [SPECULATIVE] evaluates as [REASONABLE]
    for current and for voltage, and the voltage evaluator is the same under
    [TYPOS] as under [STRICT] (the typo correction is in the current formula
    only). *)
Theorem levels_that_coincide (measurement_type : string)
  (segment_values : option (list Qc)) (env_conditions : option string)
  (standard_version : option StandardVersion) :
  Analyzer.is_below_letgo measurement_type segment_values env_conditions
    (Some SPECULATIVE) standard_version =
  Analyzer.is_below_letgo measurement_type segment_values env_conditions
    (Some REASONABLE) standard_version /\
  Analyzer.is_voltage_below_letgo segment_values env_conditions (Some TYPOS)
    standard_version =
  Analyzer.is_voltage_below_letgo segment_values env_conditions (Some STRICT)
    standard_version.
Proof.
  split.
  - unfold Analyzer.is_below_letgo.
    destruct (String.eqb measurement_type "current").
    + destruct segment_values as [vs |]; [| reflexivity].
      destruct standard_version as [[] |]; [| reflexivity].
      unfold Analyzer.is_current_below_letgo.
      destruct (py_max vs); [| reflexivity | reflexivity]. cbn [bind].
      destruct (py_div _ _); [| reflexivity | reflexivity]. cbn [bind].
      cbn [Analyzer.magnitude_level].
      destruct (py_max (map Num.abs vs)); reflexivity.
    + destruct (String.eqb measurement_type "voltage"); reflexivity.
  - reflexivity.
Qed.

(* ================================================================== *)
(** * More on segment extraction *)

(** A turn that leaves the loop returns [None] or the segment it has, which
    then spans [d]; it raises nothing, whatever the direction. *)
Lemma segment_turn_return (w : wave) (d : Qc) (dir : string) (seg : wave)
  (r : outcome (option wave)) :
  segment_turn w d dir seg = Return r ->
  r = Ok None \/ (r = Ok (Some seg) /\ spans seg d).
Proof.
  unfold segment_turn.
  destruct (Num.list_max (keys seg)) as [hi |] eqn:Hhi;
    [| intros [= <-]; auto].
  destruct (Num.list_min (keys seg)) as [lo |] eqn:Hlo;
    [| intros [= <-]; auto].
  apply list_max_greatest in Hhi. apply list_min_least in Hlo.
  destruct (hi - lo <? d) eqn:Hd.
  2: { intros [= <-]. right. split; [reflexivity |].
       apply ltb_ge in Hd. exists hi, lo. auto. }
  destruct (String.eqb dir "start").
  - destruct (Num.list_max _) as [nxt |] eqn:Hn; [| intros [= <-]; auto].
    apply list_max_greatest in Hn. destruct Hn as [Hin _].
    apply (keys_filter_In (fun t => t <? lo)) in Hin. destruct Hin as [Hin _].
    destruct (dict_get_In nxt w Hin) as (v & -> & _). discriminate.
  - destruct (String.eqb dir "end"); [| discriminate].
    destruct (Num.list_min _) as [nxt |] eqn:Hn; [| intros [= <-]; auto].
    apply list_min_least in Hn. destruct Hn as [Hin _].
    apply (keys_filter_In (fun t => hi <? t)) in Hin. destruct Hin as [Hin _].
    destruct (dict_get_In nxt w Hin) as (v & -> & _). discriminate.
Qed.

(** A turn that extends beyond the start adds the waveform's point at the
    greatest time before the segment. *)
Lemma segment_turn_start_next (w : wave) (d : Qc) (seg seg' : wave) :
  segment_turn w d "start" seg = Continue seg' ->
  exists hi lo nxt v,
    is_greatest (keys seg) hi /\ is_least (keys seg) lo /\ hi - lo < d /\
    nxt < lo /\ In (nxt, v) w /\ dict_get nxt w = Ok v /\
    (forall t, In t (keys w) -> t < lo -> t <= nxt) /\
    seg' = seg ++ [(nxt, v)].
Proof.
  unfold segment_turn.
  destruct (Num.list_max (keys seg)) as [hi |] eqn:Hhi; [| discriminate].
  destruct (Num.list_min (keys seg)) as [lo |] eqn:Hlo; [| discriminate].
  apply list_max_greatest in Hhi. apply list_min_least in Hlo.
  destruct (hi - lo <? d) eqn:Hd; [| discriminate]. apply ltb_lt in Hd.
  cbn [String.eqb Ascii.eqb Bool.eqb].
  destruct (Num.list_max _) as [nxt |] eqn:Hn; [| discriminate].
  apply list_max_greatest in Hn. destruct Hn as [Hin Hge].
  apply (keys_filter_In (fun t => t <? lo)) in Hin.
  destruct Hin as [Hin Hlt]. apply ltb_lt in Hlt.
  destruct (dict_get_In nxt w Hin) as (v & Hg & Hv). rewrite Hg.
  intros [= <-]. exists hi, lo, nxt, v.
  repeat (split; [assumption |]). split.
  - intros t Ht Htl. apply Hge.
    apply (keys_filter_In (fun t => t <? lo)). split; [exact Ht |].
    apply ltb_lt. exact Htl.
  - apply dict_set_fresh. intros C. apply Hlo in C.
    exact (Qclt_not_le _ _ Hlt C).
Qed.

(** A turn that extends beyond the end adds the waveform's point at the
    least time after the segment. *)
Lemma segment_turn_end_next (w : wave) (d : Qc) (seg seg' : wave) :
  segment_turn w d "end" seg = Continue seg' ->
  exists hi lo nxt v,
    is_greatest (keys seg) hi /\ is_least (keys seg) lo /\ hi - lo < d /\
    hi < nxt /\ In (nxt, v) w /\ dict_get nxt w = Ok v /\
    (forall t, In t (keys w) -> hi < t -> nxt <= t) /\
    seg' = seg ++ [(nxt, v)].
Proof.
  unfold segment_turn.
  destruct (Num.list_max (keys seg)) as [hi |] eqn:Hhi; [| discriminate].
  destruct (Num.list_min (keys seg)) as [lo |] eqn:Hlo; [| discriminate].
  apply list_max_greatest in Hhi. apply list_min_least in Hlo.
  destruct (hi - lo <? d) eqn:Hd; [| discriminate]. apply ltb_lt in Hd.
  cbn [String.eqb Ascii.eqb Bool.eqb].
  destruct (Num.list_min _) as [nxt |] eqn:Hn; [| discriminate].
  apply list_min_least in Hn. destruct Hn as [Hin Hge].
  apply (keys_filter_In (fun t => hi <? t)) in Hin.
  destruct Hin as [Hin Hlt]. apply ltb_lt in Hlt.
  destruct (dict_get_In nxt w Hin) as (v & Hg & Hv). rewrite Hg.
  intros [= <-]. exists hi, lo, nxt, v.
  repeat (split; [assumption |]). split.
  - intros t Ht Htl. apply Hge.
    apply (keys_filter_In (fun t => hi <? t)). split; [exact Ht |].
    apply ltb_lt. exact Htl.
  - apply dict_set_fresh. intros C. apply Hhi in C.
    exact (Qclt_not_le _ _ Hlt C).
Qed.

(** What every extension keeps holds of the segment that is returned. *)
Lemma segment_loop_start_invariant (P : wave -> Prop) (w : wave) (d : Qc) :
  (forall seg hi lo nxt v,
     P seg -> is_greatest (keys seg) hi -> is_least (keys seg) lo ->
     hi - lo < d -> nxt < lo -> In (nxt, v) w -> dict_get nxt w = Ok v ->
     (forall t, In t (keys w) -> t < lo -> t <= nxt) ->
     P (seg ++ [(nxt, v)])) ->
  forall n seg seg',
    P seg -> segment_loop n w d "start" seg = Ok (Some seg') -> P seg'.
Proof.
  intros Step. induction n as [| n IH]; intros seg seg' HP Hrun;
    [discriminate |].
  cbn [segment_loop] in Hrun.
  destruct (segment_turn w d "start" seg) as [s1 | r] eqn:T.
  - apply segment_turn_start_next in T.
    destruct T as (hi & lo & nxt & v & G & L & Hd & Hlt & Hin & Hg & Hn & ->).
    apply (IH _ _ (Step _ _ _ _ _ HP G L Hd Hlt Hin Hg Hn) Hrun).
  - apply segment_turn_return in T. subst r.
    destruct T as [[=] | [[= <-] _]]. exact HP.
Qed.

Lemma segment_loop_end_invariant (P : wave -> Prop) (w : wave) (d : Qc) :
  (forall seg hi lo nxt v,
     P seg -> is_greatest (keys seg) hi -> is_least (keys seg) lo ->
     hi - lo < d -> hi < nxt -> In (nxt, v) w -> dict_get nxt w = Ok v ->
     (forall t, In t (keys w) -> hi < t -> nxt <= t) ->
     P (seg ++ [(nxt, v)])) ->
  forall n seg seg',
    P seg -> segment_loop n w d "end" seg = Ok (Some seg') -> P seg'.
Proof.
  intros Step. induction n as [| n IH]; intros seg seg' HP Hrun;
    [discriminate |].
  cbn [segment_loop] in Hrun.
  destruct (segment_turn w d "end" seg) as [s1 | r] eqn:T.
  - apply segment_turn_end_next in T.
    destruct T as (hi & lo & nxt & v & G & L & Hd & Hlt & Hin & Hg & Hn & ->).
    apply (IH _ _ (Step _ _ _ _ _ HP G L Hd Hlt Hin Hg Hn) Hrun).
  - apply segment_turn_return in T. subst r.
    destruct T as [[=] | [[= <-] _]]. exact HP.
Qed.

(** X8.  When the points of the window already span [min_duration], the
    window is returned as it is, and the direction is not looked at: any
    string will do. *)
Theorem get_segment_window_long_enough (w : wave) (s e d : Qc) (dir : string) :
  spans (window w s e) d ->
  get_segment_from_waveform (Some w) s e d dir = Ok (Some (window w s e)).
Proof.
  intros (hi & lo & G & L & Hd).
  unfold get_segment_from_waveform, get_segment_fuel.
  cbn [segment_loop]. unfold segment_turn.
  destruct (Num.list_max (keys (window w s e))) as [hi' |] eqn:Hhi.
  2: { apply list_max_None in Hhi. destruct G as [Hin _].
       rewrite Hhi in Hin. destruct Hin. }
  destruct (Num.list_min (keys (window w s e))) as [lo' |] eqn:Hlo.
  2: { apply list_min_None in Hlo. destruct G as [Hin _].
       rewrite Hlo in Hin. destruct Hin. }
  apply list_max_greatest in Hhi. apply list_min_least in Hlo.
  assert (hi' = hi) by (eapply is_greatest_unique; eauto).
  assert (lo' = lo) by (eapply is_least_unique; eauto). subst.
  apply ltb_ge in Hd. rewrite Hd. reflexivity.
Qed.

Lemma get_segment_window_long_enough_witness :
  get_segment_from_waveform (Some [(q 0, q 1); (q 1, q 1); (q 2, q 1)])
    (q 1) (q 2) (q 1) "sideways"
  = Ok (Some (window [(q 0, q 1); (q 1, q 1); (q 2, q 1)] (q 1) (q 2))).
Proof.
  apply get_segment_window_long_enough.
  exists (q 2), (q 1). repeat split.
  - right. left. reflexivity.
  - intros x [<- | [<- | []]]; apply leb_le; vm_compute; reflexivity.
  - left. reflexivity.
  - intros x [<- | [<- | []]]; apply leb_le; vm_compute; reflexivity.
  - apply leb_le. vm_compute. reflexivity.
Defined.

Lemma dict_get_Ok_In (k v : Qc) (d : wave) :
  dict_get k d = Ok v -> In (k, v) d.
Proof.
  induction d as [| [k' v'] d IH]; simpl; [discriminate |].
  destruct (k' =? k) eqn:E.
  - apply eqb_eq in E. intros [= ->]. left. congruence.
  - intros H. right. apply IH, H.
Qed.

Lemma dict_get_NoDup (k v : Qc) (d : wave) :
  NoDup (keys d) -> In (k, v) d -> dict_get k d = Ok v.
Proof.
  induction d as [| [k' v'] d IH]; simpl; [intros _ [] |].
  intros ND H. inversion ND as [| ? ? Hnot ND']; subst.
  destruct H as [[= -> ->] | H].
  - replace (k =? k) with true by (symmetry; apply eqb_eq; reflexivity).
    reflexivity.
  - destruct (k' =? k) eqn:E; [| apply IH; assumption].
    apply eqb_eq in E. subst k'. exfalso. apply Hnot.
    apply (in_keys (k, v)). exact H.
Qed.

Lemma NoDup_keys_filter (f : Qc * Qc -> bool) (w : wave) :
  NoDup (keys w) -> NoDup (keys (filter f w)).
Proof.
  induction w as [| p w IH]; simpl; [auto |].
  intros ND. inversion ND as [| ? ? Hnot ND']; subst.
  destruct (f p); [| auto]. simpl. constructor; [| auto].
  intros C. apply Hnot. unfold keys in *. apply in_map_iff in C.
  destruct C as (p' & E & Hp'). apply filter_In in Hp'.
  apply in_map_iff. exists p'. tauto.
Qed.

Lemma NoDup_snoc {A : Type} (l : list A) (x : A) :
  NoDup l -> ~ In x l -> NoDup (l ++ [x]).
Proof.
  induction l as [| y l IH]; simpl; intros ND Hx.
  - constructor; [intros [] | constructor].
  - inversion ND as [| ? ? Hy ND']; subst. constructor.
    + intros C. apply in_app_or in C. destruct C as [C | [C | []]]; auto.
    + apply IH; auto.
Qed.

(** For the two directions: the keys stay distinct and every point is the
    waveform's. *)
Lemma segment_sub_dict_step (w seg : wave) (nxt v : Qc) :
  (NoDup (keys seg) /\ forall t u, In (t, u) seg -> dict_get t w = Ok u) ->
  ~ In nxt (keys seg) -> dict_get nxt w = Ok v ->
  NoDup (keys (seg ++ [(nxt, v)])) /\
  forall t u, In (t, u) (seg ++ [(nxt, v)]) -> dict_get t w = Ok u.
Proof.
  intros [ND Hsub] Hfresh Hg. split.
  - rewrite keys_app. apply NoDup_snoc; assumption.
  - intros t u Hin. apply in_app_or in Hin.
    destruct Hin as [Hin | [[= <- <-] | []]]; auto.
Qed.

(** X9.  On a waveform (a dictionary: distinct times), a returned segment is
    a sub-dictionary of the waveform: its times are distinct, and the value
    it has at a time is the waveform's value at that time. *)
Theorem get_segment_sub_dict (w : wave) (s e d : Qc) (dir : string)
  (seg : wave) :
  NoDup (keys w) ->
  get_segment_from_waveform (Some w) s e d dir = Ok (Some seg) ->
  NoDup (keys seg) /\
  forall t v, dict_get t seg = Ok v -> dict_get t w = Ok v.
Proof.
  intros ND Hrun.
  assert (P0 : NoDup (keys (window w s e)) /\
               forall t u, In (t, u) (window w s e) -> dict_get t w = Ok u).
  { split; [apply NoDup_keys_filter, ND |].
    intros t u Hin. apply window_In in Hin. apply dict_get_NoDup; tauto. }
  assert (P : NoDup (keys seg) /\
              forall t u, In (t, u) seg -> dict_get t w = Ok u).
  { unfold get_segment_from_waveform, get_segment_fuel in Hrun.
    pose (P := fun sg : wave =>
                 NoDup (keys sg) /\
                 forall t u, In (t, u) sg -> dict_get t w = Ok u).
    destruct (string_dec dir "start") as [-> | Hs].
    - refine (segment_loop_start_invariant P w d _ _ _ _ P0 Hrun).
      intros sg hi lo nxt v HP G L Hd Hlt Hin Hg Hn.
      apply segment_sub_dict_step; auto.
      intros C. apply L in C. exact (Qclt_not_le _ _ Hlt C).
    - destruct (string_dec dir "end") as [-> | He].
      + refine (segment_loop_end_invariant P w d _ _ _ _ P0 Hrun).
        intros sg hi lo nxt v HP G L Hd Hlt Hin Hg Hn.
        apply segment_sub_dict_step; auto.
        intros C. apply G in C. exact (Qclt_not_le _ _ Hlt C).
      + cbn [segment_loop] in Hrun.
        assert (O := segment_turn_other w d dir (window w s e) Hs He).
        destruct (segment_turn w d dir (window w s e)) as [s1 | r] eqn:T.
        * destruct O as [-> _].
          rewrite (segment_loop_stuck w d dir _ T) in Hrun. discriminate.
        * apply segment_turn_return in T. subst r.
          destruct T as [[=] | [[= ->] _]]. exact P0. }
  destruct P as [ND' Hsub]. split; [exact ND' |].
  intros t v Hg. apply Hsub. apply dict_get_Ok_In. exact Hg.
Qed.

Lemma get_segment_sub_dict_witness :
  NoDup (keys [(q 2, q 7); (q 1, q 5); (q 0, q 3)]).
Proof.
  apply (get_segment_sub_dict [(q 0, q 3); (q 1, q 5); (q 2, q 7)]
           (q 2) (q 2) (q 2) "start").
  - repeat constructor; simpl; intros C;
      repeat (destruct C as [C | C]; [discriminate C |]); exact C.
  - vm_compute. reflexivity.
Defined.

Lemma least_window_ge (w : wave) (s e lo : Qc) :
  is_least (keys (window w s e)) lo -> s <= lo.
Proof.
  intros [Hin _]. unfold keys in Hin. apply in_map_iff in Hin.
  destruct Hin as (p & <- & Hp). apply window_In in Hp. tauto.
Qed.

(** X10.  Extending beyond the start leaves no gap: on a waveform with
    distinct times, the returned segment has every point of the waveform
    from its own earliest time to [end_time]. *)
Theorem get_segment_start_contiguous (w : wave) (s e d : Qc) (seg : wave)
  (lo : Qc) :
  NoDup (keys w) ->
  get_segment_from_waveform (Some w) s e d "start" = Ok (Some seg) ->
  is_least (keys seg) lo ->
  forall p, In p w -> lo <= fst p -> fst p <= e -> In p seg.
Proof.
  intros ND Hrun.
  pose (P := fun sg : wave =>
               forall lo, is_least (keys sg) lo ->
               forall p, In p w -> lo <= fst p -> fst p <= e -> In p sg).
  revert lo. change (P seg).
  unfold get_segment_from_waveform, get_segment_fuel in Hrun.
  refine (segment_loop_start_invariant P w d _ _ _ _ _ Hrun).
  - intros sg hi lo nxt v HP G L Hd Hlt Hin Hg Hn lo' L' p Hp Hlo He.
    destruct (greatest_snoc _ _ _ nxt G L Hlt) as [_ L2].
    change [nxt] with (keys [(nxt, v)]) in L2.
    rewrite <- (keys_app sg [(nxt, v)]) in L2.
    assert (lo' = nxt) by (eapply is_least_unique; eauto). subst lo'.
    apply in_or_app.
    destruct (Qclt_le_dec (fst p) lo) as [C | C].
    + right. left.
      assert (E : fst p = nxt).
      { apply Qcle_antisym; [| exact Hlo].
        apply Hn; [apply in_keys; exact Hp | exact C]. }
      destruct p as [t u]. simpl in E. subst t. f_equal.
      apply (dict_get_NoDup nxt u w ND) in Hp. congruence.
    + left. apply (HP lo L p Hp C He).
  - intros lo L p Hp Hlo He. apply window_In. repeat split; auto.
    apply Qcle_trans with lo; [| exact Hlo].
    apply (least_window_ge w s e lo L).
Qed.

Lemma get_segment_start_contiguous_witness :
  In (q 1, q 5) [(q 2, q 7); (q 1, q 5); (q 0, q 3)].
Proof.
  apply (get_segment_start_contiguous [(q 0, q 3); (q 1, q 5); (q 2, q 7)]
           (q 2) (q 2) (q 2) [(q 2, q 7); (q 1, q 5); (q 0, q 3)] (q 0)).
  - repeat constructor; simpl; intros C;
      repeat (destruct C as [C | C]; [discriminate C |]); exact C.
  - vm_compute. reflexivity.
  - split; [right; right; left; reflexivity |].
    intros x [<- | [<- | [<- | []]]]; apply leb_le; vm_compute; reflexivity.
  - right. left. reflexivity.
  - apply leb_le. vm_compute. reflexivity.
  - apply leb_le. vm_compute. reflexivity.
Defined.

(** X11.  Extending beyond the start takes no more points than needed: the
    returned segment is the window itself, or every point of it but the
    earliest is less than [min_duration] before its latest. *)
Theorem get_segment_start_minimal (w : wave) (s e d : Qc) (seg : wave) :
  get_segment_from_waveform (Some w) s e d "start" = Ok (Some seg) ->
  seg = window w s e \/
  forall hi lo, is_greatest (keys seg) hi -> is_least (keys seg) lo ->
    forall p, In p seg -> fst p <> lo -> hi - fst p < d.
Proof.
  intros Hrun.
  pose (P := fun sg : wave =>
               sg = window w s e \/
               forall hi lo, is_greatest (keys sg) hi ->
                 is_least (keys sg) lo ->
                 forall p, In p sg -> fst p <> lo -> hi - fst p < d).
  change (P seg).
  unfold get_segment_from_waveform, get_segment_fuel in Hrun.
  refine (segment_loop_start_invariant P w d _ _ _ _ _ Hrun);
    [| left; reflexivity].
  intros sg hi lo nxt v _ G L Hd Hlt Hin Hg Hn. right.
  intros hi' lo' G' L' p Hp Hne.
  destruct (greatest_snoc _ _ _ nxt G L Hlt) as [G2 L2].
  change [nxt] with (keys [(nxt, v)]) in G2, L2.
  rewrite <- (keys_app sg [(nxt, v)]) in G2, L2.
  assert (hi' = hi) by (eapply is_greatest_unique; eauto).
  assert (lo' = nxt) by (eapply is_least_unique; eauto). subst.
  apply in_app_or in Hp. destruct Hp as [Hp | [<- | []]].
  - assert (lo <= fst p) by (apply L; apply in_keys; exact Hp).
    revert Hd H. qc_arith.
  - simpl in Hne. congruence.
Qed.

Lemma get_segment_start_minimal_witness :
  [(q 2, q 7); (q 1, q 5); (q 0, q 3)] =
    window [(q 0, q 3); (q 1, q 5); (q 2, q 7)] (q 2) (q 2) \/
  forall hi lo,
    is_greatest (keys [(q 2, q 7); (q 1, q 5); (q 0, q 3)]) hi ->
    is_least (keys [(q 2, q 7); (q 1, q 5); (q 0, q 3)]) lo ->
    forall p, In p [(q 2, q 7); (q 1, q 5); (q 0, q 3)] ->
      fst p <> lo -> hi - fst p < q 2.
Proof.
  apply (get_segment_start_minimal [(q 0, q 3); (q 1, q 5); (q 2, q 7)]
           (q 2) (q 2) (q 2)).
  vm_compute. reflexivity.
Defined.







(* ================================================================== *)
(** * More on merging *)

(** What holds of all regions and of the union of any two of them holds of
    all merged regions. *)
Lemma merge_loop_Forall (P : region -> Prop) :
  (forall r1 r2, P r1 -> P r2 -> ~ separated r1 r2 ->
     P (Num.min2 (fst r1) (fst r2), Num.max2 (snd r1) (snd r2))) ->
  forall n l, Forall P l -> Forall P (merge_loop n l).
Proof.
  intros Hu. induction n as [| n IH]; intros l Hl; cbn [merge_loop]; [auto |].
  destruct (merge_step l) as [l' |] eqn:E; [| exact Hl].
  apply IH. apply merge_step_Some in E.
  destruct E as (r1 & r2 & rest & Pm & NS & ->).
  apply (Permutation_Forall Pm) in Hl.
  inversion Hl as [| ? ? H1 Hl']; subst. inversion Hl' as [| ? ? H2 Hl'']; subst.
  apply Forall_app. split; [exact Hl'' |]. constructor; [| constructor].
  apply Hu; assumption.
Qed.

Lemma merge_loop_nonempty : forall n l, l <> [] -> merge_loop n l <> [].
Proof.
  induction n as [| n IH]; intros l Hl; cbn [merge_loop]; [exact Hl |].
  destruct (merge_step l) as [l' |] eqn:E; [| exact Hl].
  apply IH. apply merge_step_Some in E.
  destruct E as (r1 & r2 & rest & _ & _ & ->).
  intros C. apply app_eq_nil in C. destruct C as [_ C]. discriminate.
Qed.

(** X12.  [merge_regions] returns its argument unchanged, in the same
    order, exactly when no two of its regions overlap or touch. *)
Theorem merge_regions_fixed_iff (R : list region) :
  merge_regions R = R <-> pairwise_separated R.
Proof.
  split.
  - intros E. rewrite <- E. apply merge_loop_keeps.
    unfold merge_regions. lia.
  - apply merge_loop_separated.
Qed.

(** X13.  For any list of regions, also regions with [start > end]: the
    merged list is not longer, is empty only if the list is, has pairwise
    separated regions and the same union; and merging invents no boundary:
    the start of a merged region is the start of a region of the list, and
    its end the end of one. *)
Theorem merge_regions_any_list (R : list region) :
  (List.length (merge_regions R) <= List.length R)%nat /\
  (R <> [] -> merge_regions R <> []) /\
  pairwise_separated (merge_regions R) /\
  same_union (merge_regions R) R /\
  (forall r, In r (merge_regions R) ->
     (exists r1, In r1 R /\ fst r = fst r1) /\
     (exists r2, In r2 R /\ snd r = snd r2)).
Proof.
  unfold merge_regions.
  destruct (merge_loop_keeps (List.length R) R) as (Hlen & Hun & _ & Hsep).
  split; [exact Hlen |]. split; [apply merge_loop_nonempty |].
  split; [apply Hsep; lia |]. split; [exact Hun |].
  apply Forall_forall.
  apply (merge_loop_Forall
           (fun r => (exists r1, In r1 R /\ fst r = fst r1) /\
                     (exists r2, In r2 R /\ snd r = snd r2))).
  - intros r1 r2 [S1 E1] [S2 E2] _. cbn [fst snd]. split.
    + destruct (min2_cases (fst r1) (fst r2)) as [[_ ->] | [_ ->]]; assumption.
    + destruct (max2_cases (snd r1) (snd r2)) as [[_ ->] | [_ ->]]; assumption.
  - apply Forall_forall. intros r Hr. split; exists r; auto.
Qed.

Lemma min2_comm (a b : Qc) : Num.min2 a b = Num.min2 b a.
Proof.
  destruct (min2_cases a b) as [[L ->] | [L ->]],
           (min2_cases b a) as [[L' ->] | [L' ->]];
    try reflexivity; revert L L'; qc_arith.
Qed.

Lemma max2_comm (a b : Qc) : Num.max2 a b = Num.max2 b a.
Proof.
  destruct (max2_cases a b) as [[L ->] | [L ->]],
           (max2_cases b a) as [[L' ->] | [L' ->]];
    try reflexivity; revert L L'; qc_arith.
Qed.

Lemma unionize_comm (r1 r2 : region) :
  unionize_regions r1 r2 = unionize_regions r2 r1.
Proof.
  unfold unionize_regions. rewrite orb_comm.
  rewrite (min2_comm (fst r1)), (max2_comm (snd r1)). reflexivity.
Qed.

(** X14.  [expand_region] on an existing region: it raises [ValueError]
    exactly when the two regions neither overlap nor touch; it returns [u]
    exactly when merging the list of the two gives the single region [u];
    and it does not depend on which of the two is the existing one. *)
Theorem expand_region_merges (existing addition : region) :
  (expand_region (Some existing) addition = Raise (ValueError NotExpandable)
   <-> separated existing addition) /\
  (forall u, expand_region (Some existing) addition = Ok u <->
             merge_regions [existing; addition] = [u]) /\
  expand_region (Some existing) addition =
  expand_region (Some addition) existing.
Proof.
  assert (M : merge_regions [existing; addition] =
              match unionize_regions existing addition with
              | Some u => [u]
              | None => [existing; addition]
              end).
  { unfold merge_regions. cbn [List.length merge_loop].
    unfold merge_step at 1. cbn [combinations2 map app first_union].
    destruct (unionize_regions existing addition) as [u |]; [| reflexivity].
    assert (R1 : list_remove addition
                   (list_remove existing [existing; addition]) = []).
    { cbn [list_remove]. rewrite region_eqb_refl.
      cbn [list_remove]. rewrite region_eqb_refl. reflexivity. }
    rewrite R1. reflexivity. }
  split; [| split].
  - rewrite <- unionize_None. unfold expand_region.
    destruct (unionize_regions existing addition); split;
      congruence.
  - intros u. rewrite M. unfold expand_region.
    destruct (unionize_regions existing addition); split; congruence.
  - unfold expand_region. rewrite unionize_comm. reflexivity.
Qed.

(* ================================================================== *)
(** * More on the window search *)

(** The two outcomes of the extension beyond the start on a waveform. *)
Lemma get_segment_start_outcome (w : wave) (s e d : Qc) :
  (exists seg,
     get_segment_from_waveform (Some w) s e d "start" = Ok (Some seg) /\
     holds_window w s e seg /\ spans seg d) \/
  (get_segment_from_waveform (Some w) s e d "start" = Ok None /\
   (window w s e = [] \/ runs_out w s e d)).
Proof.
  unfold get_segment_from_waveform, get_segment_fuel.
  destruct (window w s e) as [| p0 win] eqn:Hwin.
  - right. split; [reflexivity | left; reflexivity].
  - assert (NE : window w s e <> []) by (rewrite Hwin; discriminate).
    rewrite <- Hwin.
    destruct (least_exists _ NE) as [lo Hlo].
    destruct (segment_loop_start w s e d (S (List.length w)) (window w s e) lo
                (holds_window_init w s e) Hlo) as (r & Hr & Hspec).
    { pose proof (filter_length_le (fun p => (fst p <? lo)%Qc) w). lia. }
    rewrite Hr. destruct r as [seg |].
    + left. exists seg. tauto.
    + right. split; [reflexivity |]. right.
      destruct Hspec as (hi' & lo' & G' & Hd & Hall).
      exists hi'. split; [exact G' |].
      intros t Ht _. specialize (Hall t Ht). revert Hd Hall. qc_arith.
Qed.









Lemma pool_starmap_raise {A B : Type} (f : A -> outcome B) (args : list A)
  (a : A) (e : exn) :
  (forall x, f x <> Diverge) -> In a args -> f a = Raise e ->
  exists e', pool_starmap f args = Raise e'.
Proof.
  intros Hret. induction args as [| x rest IH]; [intros [] |].
  intros Hin Ha. cbn [pool_starmap].
  assert (R := pool_starmap_returns f rest Hret).
  destruct Hin as [-> | Hin].
  - rewrite Ha. destruct (pool_starmap f rest); [eauto | eauto | congruence].
  - destruct (IH Hin Ha) as [e' He']. rewrite He'.
    specialize (Hret x). destruct (f x); [eauto | eauto | congruence].
Qed.

(** A pass in which the worker of some candidate window raises adds no
    region. *)
Lemma parallel_pass_failed (n : Z) (mt : string) (w : wave)
  (env : option string) (start_time : option Qc) (d fl t : Qc)
  (i : option Interpretation) (sv : option StandardVersion)
  (found : list region) (e : exn) :
  (1 <= n)%Z -> floor_time start_time w = Ok fl ->
  In t (keys w) -> fl <= t - d ->
  Parallel._analyze_segment mt (Some w) (t - d) t d env i sv = Raise e ->
  Parallel.pass n mt w env start_time d i sv found = Ok found.
Proof.
  intros Hn Hfl Ht Hc He. unfold Parallel.pass. rewrite Hfl. cbn [bind].
  replace (n <? 1)%Z with false by (symmetry; apply Z.ltb_ge; exact Hn).
  destruct (pool_starmap_raise
              (fun a => Parallel._analyze_segment mt (Some w) (fst a) (snd a)
                          d env i sv)
              (target_windows w d fl) (t - d, t) e) as [e' ->].
  - intros x. apply analyze_segment_returns.
  - unfold target_windows. apply in_map_iff. exists t. split; [reflexivity |].
    apply filter_In. split; [exact Ht |]. apply leb_le. exact Hc.
  - exact He.
  - reflexivity.
Qed.

(** X16.  One failing window discards a whole waveform: when the worker of
    some candidate window of a waveform raises (an undefined mean under
    [STRICT], say), the search returns what it returns without that
    waveform, whatever the other windows of the waveform found. *)
Theorem failed_window_discards_waveform (w : wave)
  (current_waveform voltage_waveform : option wave)
  (env_conditions : option string) (start_time : option Qc)
  (min_window_duration fl t : Qc) (num_cores : option Z) (cpu_count : Z)
  (interpretation : option Interpretation)
  (standard_version : option StandardVersion) (e : exn) :
  (1 <= pool_size num_cores cpu_count)%Z ->
  floor_time start_time w = Ok fl ->
  In t (keys w) -> fl <= t - min_window_duration ->
  (Parallel._analyze_segment "current" (Some w) (t - min_window_duration) t
     min_window_duration env_conditions interpretation standard_version
     = Raise e ->
   Parallel.find_time_regions_below_letgo (Some w) voltage_waveform
     env_conditions start_time min_window_duration num_cores cpu_count
     interpretation standard_version =
   Parallel.find_time_regions_below_letgo None voltage_waveform
     env_conditions start_time min_window_duration num_cores cpu_count
     interpretation standard_version) /\
  (Parallel._analyze_segment "voltage" (Some w) (t - min_window_duration) t
     min_window_duration env_conditions interpretation standard_version
     = Raise e ->
   Parallel.find_time_regions_below_letgo current_waveform (Some w)
     env_conditions start_time min_window_duration num_cores cpu_count
     interpretation standard_version =
   Parallel.find_time_regions_below_letgo current_waveform None
     env_conditions start_time min_window_duration num_cores cpu_count
     interpretation standard_version).
Proof.
  intros Hn Hfl Ht Hc. unfold Parallel.find_time_regions_below_letgo.
  fold (pool_size num_cores cpu_count). cbn [fold_left fst snd bind].
  split; intros He.
  - rewrite (parallel_pass_failed _ _ _ _ _ _ _ _ _ _ [] _ Hn Hfl Ht Hc He).
    reflexivity.
  - destruct current_waveform as [cw |]; cbn [bind].
    + destruct (Parallel.pass _ "current" cw _ _ _ _ _ []) as [f1 | |];
        cbn [bind]; try reflexivity.
      rewrite (parallel_pass_failed _ _ _ _ _ _ _ _ _ _ f1 _ Hn Hfl Ht Hc He).
      reflexivity.
    + rewrite (parallel_pass_failed _ _ _ _ _ _ _ _ _ _ [] _ Hn Hfl Ht Hc He).
      reflexivity.
Qed.

Lemma failed_window_discards_waveform_witness :
  Parallel.find_time_regions_below_letgo
    (Some [(q 0, q 0); (q 3, q 0); (q 6, q 0.1)]) None None None (q 3) None 4
    (Some STRICT) (Some UL1400_1_ISSUE_1) =
  Parallel.find_time_regions_below_letgo None None None None (q 3) None 4
    (Some STRICT) (Some UL1400_1_ISSUE_1).
Proof.
  destruct (failed_window_discards_waveform
              [(q 0, q 0); (q 3, q 0); (q 6, q 0.1)] None None None None (q 3)
              (q 0) (q 6) None 4 (Some STRICT) (Some UL1400_1_ISSUE_1)
              (ValueError AboveCeilingDC)) as [H _].
  - vm_compute. discriminate.
  - vm_compute. reflexivity.
  - right. right. left. reflexivity.
  - apply leb_le. vm_compute. reflexivity.
  - apply H. vm_compute. reflexivity.
Defined.

(** X17.  An empty waveform: with no [start_time] the search raises the
    [ValueError] of [min] on the empty key view; with a [start_time] (and a
    pool that can be created) the search returns what it returns without
    that waveform. *)
Theorem empty_waveform_search (voltage_waveform : option wave)
  (env_conditions : option string) (min_window_duration : Qc)
  (num_cores : option Z) (cpu_count : Z)
  (interpretation : option Interpretation)
  (standard_version : option StandardVersion) :
  Parallel.find_time_regions_below_letgo (Some []) voltage_waveform
    env_conditions None min_window_duration num_cores cpu_count
    interpretation standard_version = Raise (ValueError EmptySequence) /\
  forall start : Qc,
    (1 <= pool_size num_cores cpu_count)%Z ->
    Parallel.find_time_regions_below_letgo (Some []) voltage_waveform
      env_conditions (Some start) min_window_duration num_cores cpu_count
      interpretation standard_version =
    Parallel.find_time_regions_below_letgo None voltage_waveform
      env_conditions (Some start) min_window_duration num_cores cpu_count
      interpretation standard_version.
Proof.
  split; [reflexivity |].
  intros start Hn. unfold Parallel.find_time_regions_below_letgo.
  fold (pool_size num_cores cpu_count). cbn [fold_left fst snd bind].
  unfold Parallel.pass at 1. cbn [floor_time bind].
  replace (pool_size num_cores cpu_count <? 1)%Z with false
    by (symmetry; apply Z.ltb_ge; exact Hn).
  reflexivity.
Qed.

Lemma empty_waveform_search_witness :
  Parallel.find_time_regions_below_letgo (Some []) None None (Some (q 0))
    (q 3) None 4 (Some STRICT) (Some UL1400_1_ISSUE_1) =
  Parallel.find_time_regions_below_letgo None None None (Some (q 0)) (q 3)
    None 4 (Some STRICT) (Some UL1400_1_ISSUE_1).
Proof.
  apply (empty_waveform_search None None (q 3) None 4 (Some STRICT)
           (Some UL1400_1_ISSUE_1)).
  vm_compute. discriminate.
Defined.







(* ================================================================== *)
(** * More on the serial variant *)

(** X20.  The serial search of [let_go.py] never reports a region: whenever
    it returns, it returns the empty list. *)
Theorem serial_search_never_reports (current_waveform voltage_waveform : option wave)
  (env_conditions : option string) (start_time : option Qc)
  (min_window_duration : Qc) (regions : list region) :
  LetGo.find_time_regions_below_letgo current_waveform voltage_waveform
    env_conditions start_time min_window_duration = Ok regions ->
  regions = [].
Proof.
  unfold LetGo.find_time_regions_below_letgo.
  cbn [fold_left fst snd bind].
  assert (P : forall mt w found found',
            LetGo.pass mt w env_conditions start_time min_window_duration
              found = Ok found' -> found' = found).
  { intros mt w found found' H.
    apply (serial_pass_ok 1 mt w env_conditions start_time
             min_window_duration found found' ltac:(lia) H). }
  destruct current_waveform as [cw |]; cbn [bind].
  - destruct (LetGo.pass "current" cw _ _ _ []) as [f1 | |] eqn:P1;
      cbn [bind]; try discriminate.
    apply P in P1. subst f1.
    destruct voltage_waveform as [vw |]; cbn [bind].
    + destruct (LetGo.pass "voltage" vw _ _ _ []) as [f2 | |] eqn:P2;
        cbn [bind]; try discriminate.
      apply P in P2. subst f2. intros [= <-]. reflexivity.
    + intros [= <-]. reflexivity.
  - destruct voltage_waveform as [vw |]; cbn [bind].
    + destruct (LetGo.pass "voltage" vw _ _ _ []) as [f2 | |] eqn:P2;
        cbn [bind]; try discriminate.
      apply P in P2. subst f2. intros [= <-]. reflexivity.
    + intros [= <-]. reflexivity.
Qed.

Lemma serial_search_never_reports_witness :
  @nil region = [].
Proof.
  apply (serial_search_never_reports (Some [(q 0, q 0); (q 3, q 0.02)]) None
           None None (q 3) []).
  vm_compute. reflexivity.
Defined.

(** X21.  When the window that ends at the latest sample of the current
    waveform is a candidate and is below let-go, the serial search raises
    [TypeError], from [min] called on the key view and a float. *)
Theorem serial_search_raises_on_passing_window (w : wave)
  (voltage_waveform : option wave) (env_conditions : option string)
  (start_time : option Qc) (min_window_duration fl hi : Qc) (seg : wave) :
  floor_time start_time w = Ok fl ->
  is_greatest (keys w) hi ->
  fl <= hi - min_window_duration ->
  get_segment_from_waveform (Some w) (hi - min_window_duration) hi
    min_window_duration "start" = Ok (Some seg) ->
  LetGo.is_below_letgo "current" (Some (values seg)) env_conditions
    = Ok (Some true) ->
  LetGo.find_time_regions_below_letgo (Some w) voltage_waveform
    env_conditions start_time min_window_duration = Raise TypeError.
Proof.
  intros Hfl Hhi Hc Hseg Hb.
  unfold LetGo.find_time_regions_below_letgo.
  cbn [fold_left fst snd bind]. unfold LetGo.pass.
  rewrite Hfl. cbn [bind]. rewrite (py_max_greatest _ _ Hhi). cbn [bind].
  cbn [LetGo.search_loop]. unfold LetGo.search_turn.
  cbn [LetGo.target_start_time LetGo.target_end_time].
  apply leb_le in Hc. rewrite Hc.
  unfold LetGo.search_body. cbn [LetGo.target_end_time].
  rewrite Hseg. cbn [bind]. rewrite Hb. cbn [bind truthy].
  unfold LetGo.min_of_keys_and_max.
  assert (NE : exists m, py_max (keys seg) = Ok m).
  { destruct (get_segment_start_outcome w (hi - min_window_duration) hi
                min_window_duration)
      as [(seg' & Hseg' & _ & (m & _ & G & _)) | [Hn _]];
      [| congruence].
    rewrite Hseg in Hseg'. injection Hseg' as <-.
    exists m. apply py_max_greatest, G. }
  destruct NE as [m ->]. reflexivity.
Qed.

Lemma serial_search_raises_on_passing_window_witness :
  LetGo.find_time_regions_below_letgo (Some (ramp 11 (q 0.003))) None None
    None (q 3) = Raise TypeError.
Proof.
  apply (serial_search_raises_on_passing_window (ramp 11 (q 0.003)) None None
           None (q 3) (q 0) (q 10)
           [(q 7, q 0.003); (q 8, q 0.003); (q 9, q 0.003); (q 10, q 0.003)]).
  - vm_compute. reflexivity.
  - split; [do 10 right; left; reflexivity |].
    intros x Hx. apply leb_le. revert x Hx.
    apply Forall_forall. repeat constructor.
  - apply leb_le. vm_compute. reflexivity.
  - vm_compute. reflexivity.
  - vm_compute. reflexivity.
Defined.

(* ================================================================== *)
(** * The audit and the entry point *)

(** X22.  The audit refuses a configuration exactly when the evaluators
    refuse it on present values, and with the same [ValueError]: unsupported
    standard version first, then unsupported interpretation. *)
Theorem audit_matches_evaluator (interpretation : option Interpretation)
  (standard_version : option StandardVersion) (d : Qc) (vs : list Qc)
  (e : exn) :
  e = ValueError UnsupportedStandardVersion \/
  e = ValueError UnsupportedInterpretation ->
  (audit_config_valid interpretation standard_version (Some d) = Raise e <->
   Analyzer.is_current_below_letgo (Some vs) interpretation standard_version
     = Raise e) /\
  ((exists warned, audit_config_valid interpretation standard_version (Some d)
                     = Ok warned) <->
   forall e', ConfigurationError e' ->
     Analyzer.is_current_below_letgo (Some vs) interpretation
       standard_version <> Raise e').
Proof.
  intros He. unfold audit_config_valid, Analyzer.is_current_below_letgo.
  destruct standard_version as [[] |].
  2: { split; [split; intros H; congruence |].
       split; [intros [? H]; discriminate |].
       intros H. exfalso.
       apply (H (ValueError UnsupportedStandardVersion));
         [left; reflexivity | reflexivity]. }
  destruct interpretation as [i |].
  2: { split; [split; intros H; congruence |].
       split; [intros [? H]; discriminate |].
       intros H. exfalso.
       apply (H (ValueError UnsupportedInterpretation));
         [right; left; reflexivity | reflexivity]. }
  assert (V : forall e', ConfigurationError e' ->
            Analyzer.is_current_below_letgo (Some vs) (Some i)
              (Some UL1400_1_ISSUE_1) <> Raise e').
  { intros e' Ce' H.
    assert (R : exists why, e' = ValueError why /\
              (why = EmptySequence \/ why = NegativeDC \/
               why = AboveCeilingDC)).
    { revert H. unfold Analyzer.is_current_below_letgo.
      destruct (Num.list_max vs) as [m |] eqn:Hm.
      2: { replace (py_max vs) with (@Raise Qc (ValueError EmptySequence))
             by (unfold py_max; rewrite Hm; reflexivity).
           cbn [bind]. intros [= <-]. eauto. }
      replace (py_max vs) with (Ok m)
        by (unfold py_max; rewrite Hm; reflexivity).
      cbn [bind]. unfold py_div. rewrite (max_then_len vs m Hm). cbn [bind].
      destruct (Analyzer.magnitude_level i).
      - destruct (py_max (map Num.abs vs)) as [m' | e0 |] eqn:Hm';
          cbn [bind fst snd].
        + destruct (_ <? 0); [intros [= <-]; eauto |].
          destruct (_ <=? q 4.21); [discriminate |].
          destruct (_ <=? q 30); [destruct i; discriminate |].
          destruct (Analyzer.strict_level i);
            [intros [= <-]; eauto 6 | discriminate].
        + unfold py_max in Hm'.
          destruct (Num.list_max (map Num.abs vs)); [discriminate |].
          injection Hm' as <-. intros [= <-]. eauto.
        + discriminate.
      - cbn [bind fst snd].
        destruct (_ <? 0); [intros [= <-]; eauto |].
        destruct (_ <=? q 4.21); [discriminate |].
        destruct (_ <=? q 30); [destruct i; discriminate |].
        destruct (Analyzer.strict_level i);
          [intros [= <-]; eauto 6 | discriminate]. }
    destruct R as (why & -> & Hw).
    destruct Ce' as [C | [C | [C | C]]]; injection C as ->;
      destruct Hw as [W | [W | W]]; discriminate. }
  split.
  - split; [discriminate |]. intros H. exfalso.
    apply (V e); [| exact H].
    destruct He as [-> | ->]; [left | right; left]; reflexivity.
  - split; [intros _; exact V | intros _; eauto].
Qed.

Lemma audit_matches_evaluator_witness :
  audit_config_valid None (Some UL1400_1_ISSUE_1) (Some (q 3))
    = Raise (ValueError UnsupportedInterpretation) <->
  Analyzer.is_current_below_letgo (Some [q 1]) None (Some UL1400_1_ISSUE_1)
    = Raise (ValueError UnsupportedInterpretation).
Proof.
  apply (audit_matches_evaluator None (Some UL1400_1_ISSUE_1) (q 3) [q 1]
           (ValueError UnsupportedInterpretation)).
  right. reflexivity.
Defined.

(** X23.  Without a window duration (left out, or 0) [main_letgo] never
    ends normally: the search runs with the default of 3 s, but the audit
    that follows is called without a duration, and either it refuses the
    configuration or its comparison [None < 3] raises [TypeError]. *)
Theorem main_letgo_without_window_raises
  (import_data : string -> string -> option string -> list string ->
                 outcome (list (string * wave)))
  (format_type importer_type : string)
  (current_waveform_id data_source_file env_conditions : option string)
  (start_time : option Qc) (voltage_waveform_id : option string)
  (window_duration : option Qc) (interpretation : option Interpretation)
  (num_cores : option Z) (cpu_count : Z)
  (standard_version : option StandardVersion) :
  window_duration = None \/ window_duration = Some 0 ->
  (forall res,
     main_letgo import_data format_type importer_type current_waveform_id
       data_source_file env_conditions start_time voltage_waveform_id
       window_duration interpretation num_cores cpu_count standard_version
     <> Ok res) /\
  ((exists i, interpretation = Some i) ->
   standard_version = Some UL1400_1_ISSUE_1 ->
   audit_config_valid interpretation standard_version (if_num window_duration)
     = Raise TypeError).
Proof.
  intros Hw.
  assert (E : if_num window_duration = None).
  { destruct Hw as [-> | ->]; reflexivity. }
  split.
  - intros res. unfold main_letgo. rewrite E.
    destruct (import_data _ _ _ _); cbn [bind]; try discriminate.
    match goal with
    | |- bind ?c _ <> _ => destruct c; cbn [bind]; try discriminate
    end.
    match goal with
    | |- bind ?c _ <> _ => destruct c; cbn [bind]; try discriminate
    end.
    match goal with
    | |- bind ?c _ <> _ => destruct c; cbn [bind]; try discriminate
    end.
    unfold audit_config_valid.
    destruct standard_version as [[] |]; [| discriminate].
    destruct interpretation; discriminate.
  - intros [i ->] ->. rewrite E. reflexivity.
Qed.

Lemma main_letgo_without_window_raises_witness :
  main_letgo (fun _ _ _ _ => Ok [("ch1"%string, ramp 11 (q 0.003))])
    "csv" "tek_mso4" (Some "ch1"%string) None None None None None
    (Some STRICT) None 4 (Some UL1400_1_ISSUE_1)
  <> Ok ([(q 0, q 10)], false).
Proof.
  apply (main_letgo_without_window_raises
           (fun _ _ _ _ => Ok [("ch1"%string, ramp 11 (q 0.003))])
           "csv" "tek_mso4" (Some "ch1"%string) None None None None None
           (Some STRICT) None 4 (Some UL1400_1_ISSUE_1)).
  left. reflexivity.
Defined.

(** X24.  The parallel search lets no exception of a worker through: it
    raises only the [ValueError] of [min] on an empty waveform searched
    without a [start_time], or the [ValueError] of a pool of less than one
    process.  An unsupported configuration or an undefined mean is not raised
    to the caller; the waveform is discarded instead. *)
Theorem parallel_search_raises_only (current_waveform voltage_waveform : option wave)
  (env_conditions : option string) (start_time : option Qc)
  (min_window_duration : Qc) (num_cores : option Z) (cpu_count : Z)
  (interpretation : option Interpretation)
  (standard_version : option StandardVersion) (e : exn) :
  Parallel.find_time_regions_below_letgo current_waveform voltage_waveform
    env_conditions start_time min_window_duration num_cores cpu_count
    interpretation standard_version = Raise e ->
  (e = ValueError EmptySequence /\ start_time = None /\
   (current_waveform = Some [] \/ voltage_waveform = Some [])) \/
  (e = ValueError PoolProcesses /\ (pool_size num_cores cpu_count < 1)%Z).
Proof.
  unfold Parallel.find_time_regions_below_letgo.
  fold (pool_size num_cores cpu_count). cbn [fold_left fst snd bind].
  assert (P : forall mt w found,
            Parallel.pass (pool_size num_cores cpu_count) mt w env_conditions
              start_time min_window_duration interpretation standard_version
              found = Raise e ->
            (e = ValueError EmptySequence /\ start_time = None /\ w = []) \/
            (e = ValueError PoolProcesses /\
             (pool_size num_cores cpu_count < 1)%Z)).
  { intros mt w found. unfold Parallel.pass, floor_time.
    destruct start_time as [st |]; cbn [bind].
    - destruct (pool_size num_cores cpu_count <? 1)%Z eqn:Hn.
      + intros [= <-]. right. split; [reflexivity |].
        apply Z.ltb_lt. exact Hn.
      + match goal with
        | |- match ?c with _ => _ end = _ -> _ => destruct c; discriminate
        end.
    - unfold py_min. destruct (Num.list_min (keys w)) as [m |] eqn:Hm;
        cbn [bind].
      + destruct (pool_size num_cores cpu_count <? 1)%Z eqn:Hn.
        * intros [= <-]. right. split; [reflexivity |].
          apply Z.ltb_lt. exact Hn.
        * match goal with
          | |- match ?c with _ => _ end = _ -> _ => destruct c; discriminate
          end.
      + intros [= <-]. left. repeat split.
        apply list_min_None in Hm. destruct w; [reflexivity | discriminate]. }
  destruct current_waveform as [cw |]; cbn [bind].
  - destruct (Parallel.pass _ "current" cw _ _ _ _ _ []) as [f1 | e1 |] eqn:P1;
      cbn [bind].
    + destruct voltage_waveform as [vw |]; cbn [bind]; [| discriminate].
      destruct (Parallel.pass _ "voltage" vw _ _ _ _ _ f1)
        as [f2 | e2 |] eqn:P2; cbn [bind]; try discriminate.
      intros [= <-]. destruct (P _ _ _ P2) as [(? & ? & ->) | ?]; auto.
    + intros [= <-]. destruct (P _ _ _ P1) as [(? & ? & ->) | ?]; auto.
    + discriminate.
  - destruct voltage_waveform as [vw |]; cbn [bind]; [| discriminate].
    destruct (Parallel.pass _ "voltage" vw _ _ _ _ _ [])
      as [f2 | e2 |] eqn:P2; cbn [bind]; try discriminate.
    intros [= <-]. destruct (P _ _ _ P2) as [(? & ? & ->) | ?]; auto.
Qed.

Lemma parallel_search_raises_only_witness :
  (ValueError EmptySequence = ValueError EmptySequence /\
   @None Qc = None /\ (Some (@nil (Qc * Qc)) = Some [] \/ @None wave = Some []))
  \/ (ValueError EmptySequence = ValueError PoolProcesses /\
      (pool_size None 4 < 1)%Z).
Proof.
  apply (parallel_search_raises_only (Some []) None None None (q 3) None 4
           (Some STRICT) (Some UL1400_1_ISSUE_1) (ValueError EmptySequence)).
  vm_compute. reflexivity.
Defined.

Lemma merge_regions_any_list_witness :
  merge_regions [(q 5, q 1); (q 0, q 7)] <> [].
Proof.
  apply (merge_regions_any_list [(q 5, q 1); (q 0, q 7)]).
  discriminate.
Defined.
